(** * Global Country Explorer: the client state machine of [app.js]

    A shallow embedding of the browsing and feedback logic of [src/app.js]:
    the pagination globals, the search dispatcher with its promise
    continuations, the autocomplete matcher and the feedback form.

    Conventions.
    - A JavaScript string is its sequence of UTF-16 code units.
    - JavaScript numbers that the program only uses as integers
      ([currentPage], [selectedRating], array lengths, timer delays) are [Z].
    - The globals and the part of the document that the functions read and
      write form one [State]; a function of the program is a computation in
      the monad [M], which threads that state and may throw.
    - [fetch] and [setTimeout] are recorded in the state: a request is
      settled later by [settle], a timer runs when the clock reaches it. *)

From Stdlib Require Import ZArith NArith Ascii String Sorted.
From stdpp Require Import base tactics list numbers.

Local Open Scope Z_scope.

(** ** JavaScript strings *)

Module JsString.

Definition codeUnit := N.
Definition jsstring := list codeUnit.

(** An ASCII literal as a JavaScript string. *)
Definition js (s : string) : jsstring :=
  map N_of_ascii (list_ascii_of_string s).

(** ECMAScript WhiteSpace and LineTerminator code points, the ones
    [String.prototype.trim] strips. All of them are in the basic plane. *)
Definition whiteSpace : list codeUnit :=
  [ 9; 10; 11; 12; 13; 32; 160; 5760;
    8192; 8193; 8194; 8195; 8196; 8197; 8198; 8199; 8200; 8201; 8202;
    8232; 8233; 8239; 8287; 12288; 65279 ]%N.

Definition isWhiteSpace (c : codeUnit) : bool :=
  existsb (N.eqb c) whiteSpace.

Fixpoint trimStart (s : jsstring) : jsstring :=
  match s with
  | c :: s' => if isWhiteSpace c then trimStart s' else s
  | [] => []
  end.

Definition trimEnd (s : jsstring) : jsstring :=
  rev (trimStart (rev s)).

(** [s.trim()] *)
Definition trim (s : jsstring) : jsstring :=
  trimEnd (trimStart s).

(** [s === ""] *)
Definition isEmpty (s : jsstring) : bool :=
  match s with [] => true | _ => false end.

Fixpoint startsWith (s t : jsstring) {struct t} : bool :=
  match t, s with
  | [], _ => true
  | _ :: _, [] => false
  | b :: t', a :: s' => N.eqb a b && startsWith s' t'
  end.

(** [s.includes(t)] *)
Fixpoint includes (s t : jsstring) : bool :=
  startsWith s t ||
  match s with
  | [] => false
  | _ :: s' => includes s' t
  end.

(** [s.indexOf(t)], [-1] when [t] does not occur. *)
Fixpoint indexOf (s t : jsstring) : Z :=
  if startsWith s t then 0
  else match s with
       | [] => -1
       | _ :: s' => let i := indexOf s' t in if i <? 0 then -1 else i + 1
       end.

(** [s.substr(start, len)] and [s.substr(start)] for [0 <= start]. *)
Definition substr (s : jsstring) (start len : Z) : jsstring :=
  take (Z.to_nat len) (drop (Z.to_nat start) s).

Definition substrFrom (s : jsstring) (start : Z) : jsstring :=
  drop (Z.to_nat start) s.

(** A string made of white space only (the empty string included). *)
Definition blank (s : jsstring) : Prop := Forall (fun c => isWhiteSpace c = true) s.

(** [t] occurs in [s] as a contiguous run of code units. *)
Definition substring (t s : jsstring) : Prop :=
  exists pre post, s = pre ++ t ++ post.

End JsString.
Export JsString.

(** ** What the engine provides

    [localeCompare] depends on the locale of the browser and [toLowerCase]
    on the Unicode case tables: both are taken as given. *)

Class Host := {
  localeCompare : jsstring -> jsstring -> Z;
  toLowerCase : jsstring -> jsstring
}.

(** A comparator that [Array.prototype.sort] may be called with: the order
    [localeCompare a b <= 0] is total and transitive. *)
Class ConsistentHost (H : Host) := {
  compare_total : forall a b, localeCompare a b <= 0 \/ localeCompare b a <= 0;
  compare_trans : forall a b c,
      localeCompare a b <= 0 -> localeCompare b c <= 0 -> localeCompare a c <= 0
}.

(** A host for running the examples: code-unit order and ASCII case. *)
Module AsciiHost.

Fixpoint compareUnits (a b : jsstring) : Z :=
  match a, b with
  | [], [] => 0
  | [], _ :: _ => -1
  | _ :: _, [] => 1
  | x :: a', y :: b' =>
      match N.compare x y with
      | Lt => -1
      | Gt => 1
      | Eq => compareUnits a' b'
      end
  end.

Definition lowerUnit (c : codeUnit) : codeUnit :=
  if (65 <=? c)%N && (c <=? 90)%N then (c + 32)%N else c.

Definition host : Host :=
  {| localeCompare := compareUnits; toLowerCase := map lowerUnit |}.

End AsciiHost.

(** ** Data model *)

(** A country record of the REST Countries API, with the fields the list
    view and the matcher read. *)
Record Country := {
  name_common : jsstring;
  cca2 : jsstring;
  capital : option (list jsstring);
  region : jsstring;
  flags_png : jsstring
}.

(** An array element: [None] is [undefined]. *)
Definition Element := option Country.

(** A parsed response body: an array of records, or a value that is not an
    array (the API answers an unknown key with an object
    [{status, message}]). *)
Inductive Json :=
| JArray (records : list Country)
| JObject.

(** A value passed where the program expects an array. *)
Inductive JsValue :=
| VArray (elements : list Element)
| VObject.

Definition ofJson (data : Json) : JsValue :=
  match data with
  | JArray l => VArray (map Some l)
  | JObject => VObject
  end.

(** [data[0]] *)
Definition first (data : Json) : Element :=
  match data with
  | JArray l => head l
  | JObject => None
  end.

Inductive JsError := TypeError | NetworkError.

(** The result of [fetch(...).then(res => res.json())]: the promise is
    rejected (no transport, or a body that does not parse) or fulfilled
    with the parsed body. *)
Inductive Outcome :=
| Rejected
| Resolved (data : Json).

(** The requests the program sends, each with the continuation it
    attaches. *)
Inductive Lookup :=
| LoadAll
| ByName (key : jsstring)
| ByCode (key : jsstring)
| ByCapital (key : jsstring)
| ByRegion (key : jsstring)
| SaveFeedback (rating : Z) (comment : jsstring).

Inductive Callback := HideSuggestions | ResetFeedback.

Record Timer := { due : Z; callback : Callback }.

Inductive LogEntry :=
| LogError (e : JsError)
| LogSaved (data : Json)
| LogRating (rating : Z)
| LogFeedback (comment : jsstring).

(** *** The document *)

Record Card := {
  cardCode : jsstring;
  cardFlag : jsstring;
  cardName : jsstring;
  cardCapital : jsstring;
  cardRegion : jsstring
}.

(** The content of [#country-list], block by block. *)
Inductive Block :=
| CardBlock (card : Card)
| NoCountriesFound.

Definition Listing := list Block.

(** The content of [#pagination]. *)
Record Controls := {
  pageShown : Z;
  totalShown : Z;
  prevDisabled : bool;
  nextDisabled : bool
}.

(** The text of [#countryCount]. *)
Inductive CountText :=
| NoCount
| Found (n : Z).

Record SuggestionItem := {
  itemBefore : jsstring;
  itemBold : jsstring;
  itemAfter : jsstring;
  itemCountry : Country
}.

(** The text of [#ratingText]. *)
Inductive RatingText :=
| NoRatingText
| YouRated (rating : Z) (plural : bool).

(** *** The state *)

Record Globals := {
  currentPage : Z;
  paginatedCountries : list Element;
  allCountries : list Country;
  selectedRating : Z
}.

Record Inputs := {
  searchName : jsstring;
  searchCode : jsstring;
  searchCapital : jsstring;
  searchRegion : jsstring
}.

Record View := {
  loaderHidden : bool;
  placeholderShown : bool;
  countryList : Listing;
  pagination : option Controls;
  countryCount : CountText;
  suggestions : list SuggestionItem;
  suggestionsShown : bool
}.

Record Form := {
  feedbackText : jsstring;
  ratingText : RatingText;
  stars : list bool;
  successHidden : bool;
  modalShown : bool
}.

Record Env := {
  alerts : list jsstring;
  requests : list Lookup;
  timers : list Timer;
  now : Z;
  console : list LogEntry
}.

Record State := {
  globals : Globals;
  inputs : Inputs;
  view : View;
  form : Form;
  env : Env
}.

Definition itemsPerPage : Z := 9.

Definition initial : State := {|
  globals := {| currentPage := 1; paginatedCountries := []; allCountries := [];
                selectedRating := 0 |};
  inputs := {| searchName := []; searchCode := []; searchCapital := [];
               searchRegion := [] |};
  view := {| loaderHidden := true; placeholderShown := true; countryList := [];
             pagination := None; countryCount := NoCount; suggestions := [];
             suggestionsShown := false |};
  form := {| feedbackText := []; ratingText := NoRatingText;
             stars := replicate 5 false; successHidden := true; modalShown := false |};
  env := {| alerts := []; requests := []; timers := []; now := 0; console := [] |}
|}.

(** *** Field updates *)

Definition onGlobals (f : Globals -> Globals) (st : State) : State :=
  {| globals := f st.(globals); inputs := st.(inputs); view := st.(view);
     form := st.(form); env := st.(env) |}.
Definition onInputs (f : Inputs -> Inputs) (st : State) : State :=
  {| globals := st.(globals); inputs := f st.(inputs); view := st.(view);
     form := st.(form); env := st.(env) |}.
Definition onView (f : View -> View) (st : State) : State :=
  {| globals := st.(globals); inputs := st.(inputs); view := f st.(view);
     form := st.(form); env := st.(env) |}.
Definition onForm (f : Form -> Form) (st : State) : State :=
  {| globals := st.(globals); inputs := st.(inputs); view := st.(view);
     form := f st.(form); env := st.(env) |}.
Definition onEnv (f : Env -> Env) (st : State) : State :=
  {| globals := st.(globals); inputs := st.(inputs); view := st.(view);
     form := st.(form); env := f st.(env) |}.

Definition set_currentPage v (g : Globals) : Globals :=
  {| currentPage := v; paginatedCountries := g.(paginatedCountries);
     allCountries := g.(allCountries); selectedRating := g.(selectedRating) |}.
Definition set_paginatedCountries v (g : Globals) : Globals :=
  {| currentPage := g.(currentPage); paginatedCountries := v;
     allCountries := g.(allCountries); selectedRating := g.(selectedRating) |}.
Definition set_allCountries v (g : Globals) : Globals :=
  {| currentPage := g.(currentPage); paginatedCountries := g.(paginatedCountries);
     allCountries := v; selectedRating := g.(selectedRating) |}.
Definition set_selectedRating v (g : Globals) : Globals :=
  {| currentPage := g.(currentPage); paginatedCountries := g.(paginatedCountries);
     allCountries := g.(allCountries); selectedRating := v |}.

Definition set_searchName v (i : Inputs) : Inputs :=
  {| searchName := v; searchCode := i.(searchCode);
     searchCapital := i.(searchCapital); searchRegion := i.(searchRegion) |}.
Definition clearInputs (i : Inputs) : Inputs :=
  {| searchName := []; searchCode := []; searchCapital := []; searchRegion := [] |}.

Definition set_loaderHidden v (w : View) : View :=
  {| loaderHidden := v; placeholderShown := w.(placeholderShown);
     countryList := w.(countryList); pagination := w.(pagination);
     countryCount := w.(countryCount); suggestions := w.(suggestions);
     suggestionsShown := w.(suggestionsShown) |}.
Definition set_placeholderShown v (w : View) : View :=
  {| loaderHidden := w.(loaderHidden); placeholderShown := v;
     countryList := w.(countryList); pagination := w.(pagination);
     countryCount := w.(countryCount); suggestions := w.(suggestions);
     suggestionsShown := w.(suggestionsShown) |}.
Definition set_countryList v (w : View) : View :=
  {| loaderHidden := w.(loaderHidden); placeholderShown := w.(placeholderShown);
     countryList := v; pagination := w.(pagination);
     countryCount := w.(countryCount); suggestions := w.(suggestions);
     suggestionsShown := w.(suggestionsShown) |}.
Definition set_pagination v (w : View) : View :=
  {| loaderHidden := w.(loaderHidden); placeholderShown := w.(placeholderShown);
     countryList := w.(countryList); pagination := v;
     countryCount := w.(countryCount); suggestions := w.(suggestions);
     suggestionsShown := w.(suggestionsShown) |}.
Definition set_countryCount v (w : View) : View :=
  {| loaderHidden := w.(loaderHidden); placeholderShown := w.(placeholderShown);
     countryList := w.(countryList); pagination := w.(pagination);
     countryCount := v; suggestions := w.(suggestions);
     suggestionsShown := w.(suggestionsShown) |}.
Definition set_suggestions v (w : View) : View :=
  {| loaderHidden := w.(loaderHidden); placeholderShown := w.(placeholderShown);
     countryList := w.(countryList); pagination := w.(pagination);
     countryCount := w.(countryCount); suggestions := v;
     suggestionsShown := w.(suggestionsShown) |}.
Definition set_suggestionsShown v (w : View) : View :=
  {| loaderHidden := w.(loaderHidden); placeholderShown := w.(placeholderShown);
     countryList := w.(countryList); pagination := w.(pagination);
     countryCount := w.(countryCount); suggestions := w.(suggestions);
     suggestionsShown := v |}.

Definition set_feedbackText v (f : Form) : Form :=
  {| feedbackText := v; ratingText := f.(ratingText); stars := f.(stars);
     successHidden := f.(successHidden); modalShown := f.(modalShown) |}.
Definition set_ratingText v (f : Form) : Form :=
  {| feedbackText := f.(feedbackText); ratingText := v; stars := f.(stars);
     successHidden := f.(successHidden); modalShown := f.(modalShown) |}.
Definition set_stars v (f : Form) : Form :=
  {| feedbackText := f.(feedbackText); ratingText := f.(ratingText); stars := v;
     successHidden := f.(successHidden); modalShown := f.(modalShown) |}.
Definition set_successHidden v (f : Form) : Form :=
  {| feedbackText := f.(feedbackText); ratingText := f.(ratingText);
     stars := f.(stars); successHidden := v; modalShown := f.(modalShown) |}.
Definition set_modalShown v (f : Form) : Form :=
  {| feedbackText := f.(feedbackText); ratingText := f.(ratingText);
     stars := f.(stars); successHidden := f.(successHidden); modalShown := v |}.

Definition set_alerts v (e : Env) : Env :=
  {| alerts := v; requests := e.(requests); timers := e.(timers); now := e.(now);
     console := e.(console) |}.
Definition set_requests v (e : Env) : Env :=
  {| alerts := e.(alerts); requests := v; timers := e.(timers); now := e.(now);
     console := e.(console) |}.
Definition set_timers v (e : Env) : Env :=
  {| alerts := e.(alerts); requests := e.(requests); timers := v; now := e.(now);
     console := e.(console) |}.
Definition set_now v (e : Env) : Env :=
  {| alerts := e.(alerts); requests := e.(requests); timers := e.(timers); now := v;
     console := e.(console) |}.
Definition set_console v (e : Env) : Env :=
  {| alerts := e.(alerts); requests := e.(requests); timers := e.(timers);
     now := e.(now); console := v |}.


(** The state with the four filter fields filled in. *)
Definition withFilters (name code capital region : jsstring) (st : State) : State :=
  onInputs (fun _ => {| searchName := name; searchCode := code;
                        searchCapital := capital; searchRegion := region |}) st.

(** ** Computations: state and exceptions *)

Inductive Completion (A : Type) :=
| Normal (a : A)
| Throw (e : JsError).
Arguments Normal {A} a.
Arguments Throw {A} e.

Definition M (A : Type) : Type := State -> Completion A * State.

#[export] Instance M_ret : MRet M := fun A a st => (Normal a, st).

#[export] Instance M_bind : MBind M := fun A B k m st =>
  match m st with
  | (Normal a, st') => k a st'
  | (Throw e, st') => (Throw e, st')
  end.

Definition get : M State := fun st => (Normal st, st).
Definition modify (f : State -> State) : M unit := fun st => (Normal tt, f st).
Definition throw {A} (e : JsError) : M A := fun st => (Throw e, st).

(** [try { body } catch (e) { handler(e) }], which is also what
    [.then(body).catch(handler)] does with a fulfilled promise. *)
Definition tryCatch {A} (body : M A) (handler : JsError -> M A) : M A := fun st =>
  match body st with
  | (Normal a, st') => (Normal a, st')
  | (Throw e, st') => handler e st'
  end.

(** The state a computation leaves, however it completes. *)
Definition exec {A} (m : M A) (st : State) : State := snd (m st).

Definition completion {A} (m : M A) (st : State) : Completion A := fst (m st).

Fixpoint forEach {A} (f : A -> M unit) (l : list A) : M unit :=
  match l with
  | [] => mret tt
  | x :: l' => f x;; forEach f l'
  end.

(** ** Built-ins of the language *)

(** [Array.prototype.sort] with a comparator: a stable sort. The elements
    that are [undefined] go last and are not given to the comparator. *)
Section Sort.

Context {A : Type} (compareFn : A -> A -> Z).

Fixpoint insertSorted (x : A) (l : list A) : list A :=
  match l with
  | [] => [x]
  | y :: l' => if compareFn x y <=? 0 then x :: l else y :: insertSorted x l'
  end.

Definition stableSort (l : list A) : list A := foldr insertSorted [] l.

Definition arraySort (l : list (option A)) : list (option A) :=
  let present := omap id l in
  map Some (stableSort present) ++ replicate (length l - length present)%nat None.

Definition before (a b : A) : Prop := compareFn a b <= 0.

(** Two elements that the comparator does not tell apart. *)
Definition tied (a b : A) : bool := (compareFn a b <=? 0) && (compareFn b a <=? 0).

End Sort.

(** [Array.prototype.slice(start, end)], negative indices counting from
    the end. *)
Definition relativeIndex (len i : Z) : Z :=
  if i <? 0 then Z.max (len + i) 0 else Z.min i len.

Definition slice {A} (l : list A) (start stop : Z) : list A :=
  let len := Z.of_nat (length l) in
  let k := relativeIndex len start in
  let final := relativeIndex len stop in
  take (Z.to_nat (final - k)) (drop (Z.to_nat k) l).

(** [Math.ceil(n / d)] on integers, for a positive [d]. The quotients the
    program forms are of an array length by [itemsPerPage], where the
    floating-point division is exact enough for [Math.ceil] to return the
    integer ceiling. *)
Definition ceilDiv (n d : Z) : Z := - ((- n) / d).

(** ** The program *)

Section Program.

Context {host : Host}.

(** [(a, b) => a.name.common.localeCompare(b.name.common)] *)
Definition byCommonName (a b : Country) : Z :=
  localeCompare a.(name_common) b.(name_common).

(** *** Effects on the environment *)

Definition fetch (r : Lookup) : M unit :=
  modify (onEnv (fun e => set_requests (e.(requests) ++ [r]) e)).

Definition alert (message : jsstring) : M unit :=
  modify (onEnv (fun e => set_alerts (e.(alerts) ++ [message]) e)).

Definition consoleLog (entry : LogEntry) : M unit :=
  modify (onEnv (fun e => set_console (e.(console) ++ [entry]) e)).

Definition setTimeout (cb : Callback) (delay : Z) : M unit :=
  modify (onEnv (fun e =>
    set_timers (e.(timers) ++ [{| due := e.(now) + delay; callback := cb |}]) e)).

(** *** Loader *)

Definition showLoader : M unit := modify (onView (set_loaderHidden false)).
Definition hideLoader : M unit := modify (onView (set_loaderHidden true)).

Definition loadAllCountries : M unit :=
  showLoader;;
  fetch LoadAll.

(** *** Pagination *)

Definition updateCountryCount (count : Z) : M unit :=
  modify (onView (set_countryCount (Found count))).

Definition showNoCountriesFound : M unit :=
  modify (onView (set_countryList [NoCountriesFound]));;
  modify (onView (set_pagination None));;
  updateCountryCount 0.

Definition mkCard (country : Country) : Card :=
  {| cardCode := country.(cca2);
     cardFlag := country.(flags_png);
     cardName := country.(name_common);
     cardCapital := match country.(capital) with
                    | Some (c :: _) => c
                    | Some [] => js "undefined"
                    | None => js "N/A"
                    end;
     cardRegion := country.(region) |}.

(** The body of the [forEach] of [displayCountries]: reading [cca2] of
    [undefined] throws. *)
Definition appendCard (country : Element) : M unit :=
  match country with
  | Some c =>
      modify (onView (fun w => set_countryList (w.(countryList) ++ [CardBlock (mkCard c)]) w))
  | None => throw TypeError
  end.

Definition displayCountries (countries : list Element) : M unit :=
  modify (onView (set_placeholderShown false));;
  modify (onView (set_countryList []));;
  st ← get;
  updateCountryCount (Z.of_nat (length st.(globals).(paginatedCountries)));;
  forEach appendCard countries.

Definition totalPages (st : State) : Z :=
  ceilDiv (Z.of_nat (length st.(globals).(paginatedCountries))) itemsPerPage.

Definition updatePaginationControls : M unit :=
  st ← get;
  if (length st.(globals).(paginatedCountries) =? 0)%nat
  then modify (onView (set_pagination None))
  else
    let page := st.(globals).(currentPage) in
    modify (onView (set_pagination (Some
      {| pageShown := page;
         totalShown := totalPages st;
         prevDisabled := page =? 1;
         nextDisabled := page =? totalPages st |}))).

Definition renderPage : M unit :=
  st ← get;
  if (length st.(globals).(paginatedCountries) =? 0)%nat
  then showNoCountriesFound
  else
    let start := (st.(globals).(currentPage) - 1) * itemsPerPage in
    let stop := start + itemsPerPage in
    let sliced := slice st.(globals).(paginatedCountries) start stop in
    displayCountries sliced;;
    updatePaginationControls.

(** [countries.sort] is not a function when [countries] is not an
    array: the call throws before anything is assigned. *)
Definition applyPagination (countries : JsValue) : M unit :=
  match countries with
  | VArray l =>
      modify (onGlobals (set_paginatedCountries (arraySort byCommonName l)));;
      modify (onGlobals (set_currentPage 1));;
      renderPage
  | VObject => throw TypeError
  end.

Definition prevPage : M unit :=
  st ← get;
  if st.(globals).(currentPage) >? 1
  then
    modify (onGlobals (set_currentPage (st.(globals).(currentPage) - 1)));;
    renderPage
  else mret tt.

Definition nextPage : M unit :=
  st ← get;
  if st.(globals).(currentPage) <? totalPages st
  then
    modify (onGlobals (set_currentPage (st.(globals).(currentPage) + 1)));;
    renderPage
  else mret tt.

(** *** Search *)

Definition searchByName (name : jsstring) : M unit :=
  showLoader;; fetch (ByName name).
Definition searchByCode (code : jsstring) : M unit :=
  showLoader;; fetch (ByCode code).
Definition searchByCapital (capital : jsstring) : M unit :=
  showLoader;; fetch (ByCapital capital).
Definition searchByRegion (region : jsstring) : M unit :=
  showLoader;; fetch (ByRegion region).

Definition searchCountries : M unit :=
  modify (onView (set_placeholderShown false));;
  st ← get;
  let name := trim st.(inputs).(searchName) in
  let code := trim st.(inputs).(searchCode) in
  let capital := trim st.(inputs).(searchCapital) in
  let region := st.(inputs).(searchRegion) in
  if negb (isEmpty name) then searchByName name
  else if negb (isEmpty code) then searchByCode code
  else if negb (isEmpty capital) then searchByCapital capital
  else if negb (isEmpty region) then searchByRegion region
  else loadAllCountries.

(** [promise.then(onData).catch(onError)]: a rejection goes to [onError],
    and so does an exception thrown by [onData]. *)
Definition thenCatch (onData : Json -> M unit) (onError : JsError -> M unit)
    (o : Outcome) : M unit :=
  match o with
  | Rejected => onError NetworkError
  | Resolved data => tryCatch (onData data) onError
  end.

(** The continuation of each request, run when its promise settles. *)
Definition settle (r : Lookup) : Outcome -> M unit :=
  match r with
  | LoadAll =>
      thenCatch
        (fun data =>
           hideLoader;;
           match data with
           | JArray l => modify (onGlobals (set_allCountries (stableSort byCommonName l)))
           | JObject => throw TypeError
           end)
        (fun err => hideLoader;; consoleLog (LogError err))
  | ByName _ =>
      thenCatch
        (fun data => hideLoader;; applyPagination (ofJson data))
        (fun err => hideLoader;; applyPagination (VArray []))
  | ByCode _ =>
      thenCatch
        (fun data => hideLoader;; applyPagination (VArray [first data]))
        (fun err => hideLoader;; alert (js "Invalid country code!"))
  | ByCapital _ =>
      thenCatch
        (fun data => hideLoader;; applyPagination (ofJson data))
        (fun err => hideLoader;; alert (js "No country with that capital!"))
  | ByRegion _ =>
      thenCatch
        (fun data => hideLoader;; applyPagination (ofJson data))
        (fun err => hideLoader;; alert (js "Region not found!"))
  | SaveFeedback _ _ =>
      thenCatch
        (fun data => consoleLog (LogSaved data))
        (fun err => consoleLog (LogError err))
  end.

Definition resetFilters : M unit :=
  modify (onInputs clearInputs);;
  modify (onView (set_suggestions []));;
  modify (onView (set_suggestionsShown false));;
  modify (onView (set_countryList []));;
  modify (onView (set_pagination None));;
  modify (onView (set_placeholderShown true));;
  modify (onView (set_countryCount NoCount)).

(** *** Autocomplete *)

Definition matchesInput (input : jsstring) (c : Country) : bool :=
  includes (toLowerCase c.(name_common)) (toLowerCase input).

Definition suggest (input : jsstring) (catalog : list Country) : list Country :=
  slice (List.filter (matchesInput input) catalog) 0 5.

Definition mkItem (input : jsstring) (c : Country) : SuggestionItem :=
  let index := indexOf (toLowerCase c.(name_common)) (toLowerCase input) in
  let len := Z.of_nat (length input) in
  {| itemBefore := substr c.(name_common) 0 index;
     itemBold := substr c.(name_common) index len;
     itemAfter := substrFrom c.(name_common) (index + len);
     itemCountry := c |}.

Definition showSuggestions (input : jsstring) : M unit :=
  modify (onView (set_suggestions []));;
  if isEmpty input
  then modify (onView (set_suggestionsShown false))
  else
    st ← get;
    let matches := suggest input st.(globals).(allCountries) in
    if (length matches =? 0)%nat
    then modify (onView (set_suggestionsShown false))
    else
      modify (onView (set_suggestionsShown true));;
      forEach
        (fun c => modify (onView (fun w =>
           set_suggestions (w.(suggestions) ++ [mkItem input c]) w)))
        matches.

(** The [mousedown] listener of a suggestion. *)
Definition selectSuggestion (c : Country) : M unit :=
  modify (onInputs (set_searchName c.(name_common)));;
  modify (onView (set_suggestions []));;
  modify (onView (set_suggestionsShown false));;
  applyPagination (VArray [Some c]).

(** The [blur] listener of [#searchName]. *)
Definition onBlur : M unit := setTimeout HideSuggestions 200.

(** *** Feedback *)

Definition setRating (rating : Z) : M unit :=
  modify (onGlobals (set_selectedRating rating));;
  modify (onForm (fun f =>
    set_stars (imap (fun index _ => Z.of_nat index <? rating) f.(stars)) f));;
  modify (onForm (set_ratingText (YouRated rating (rating >? 1)))).

Definition submitFeedback : M unit :=
  st ← get;
  let feedback := trim st.(form).(feedbackText) in
  if st.(globals).(selectedRating) =? 0
  then alert (js "Please select a star rating.")
  else if isEmpty feedback
  then alert (js "Please enter your feedback or query.")
  else
    fetch (SaveFeedback st.(globals).(selectedRating) feedback);;
    consoleLog (LogRating st.(globals).(selectedRating));;
    consoleLog (LogFeedback feedback);;
    modify (onForm (set_successHidden false));;
    setTimeout ResetFeedback 2000.

(** *** Timer callbacks *)

Definition runCallback (cb : Callback) : M unit :=
  match cb with
  | HideSuggestions => modify (onView (set_suggestionsShown false))
  | ResetFeedback =>
      modify (onGlobals (set_selectedRating 0));;
      modify (onForm (set_feedbackText []));;
      modify (onForm (set_ratingText NoRatingText));;
      modify (onForm (fun f => set_stars (map (fun _ => false) f.(stars)) f));;
      modify (onForm (set_successHidden true));;
      modify (onForm (set_modalShown false))
  end.

(** The clock moves forward by [delay] milliseconds with no other event:
    the timers that come due run in the order of their times, those of
    one time in the order they were set. No callback of this program
    sets a timer. *)
Definition advance (delay : Z) (st : State) : State :=
  let t := st.(env).(now) + delay in
  let ready := stableSort (fun a b => a.(due) - b.(due))
                 (List.filter (fun x => x.(due) <=? t) st.(env).(timers)) in
  let waiting := List.filter (fun x => negb (x.(due) <=? t)) st.(env).(timers) in
  let st1 := onEnv (set_timers waiting) st in
  let st2 := foldl (fun s x =>
               exec (runCallback x.(callback))
                    (onEnv (set_now (Z.max s.(env).(now) x.(due))) s)) st1 ready in
  onEnv (set_now t) st2.

(** *** The page as a state machine *)

(** What can happen to the page: it loads, the user acts on a control, a
    request settles, time passes. *)
Inductive Event :=
| Loaded
| FiltersEdited (name code capital region : jsstring)
| CommentEdited (text : jsstring)
| SearchClicked
| ResetClicked
| NameTyped (input : jsstring)
| SuggestionPicked (c : Country)
| NameBlurred
| PrevClicked
| NextClicked
| StarClicked (rating : Z)
| SubmitClicked
| Settled (r : Lookup) (o : Outcome)
| Elapsed (delay : Z).

Definition handle (e : Event) (st : State) : State :=
  match e with
  | Loaded => exec loadAllCountries st
  | FiltersEdited name code capital region => withFilters name code capital region st
  | CommentEdited text => onForm (set_feedbackText text) st
  | SearchClicked => exec searchCountries st
  | ResetClicked => exec resetFilters st
  | NameTyped input => exec (showSuggestions input) st
  | SuggestionPicked c => exec (selectSuggestion c) st
  | NameBlurred => exec onBlur st
  | PrevClicked => exec prevPage st
  | NextClicked => exec nextPage st
  | StarClicked rating => exec (setRating rating) st
  | SubmitClicked => exec submitFeedback st
  | Settled r o => exec (settle r o) st
  | Elapsed delay => advance delay st
  end.

Definition run (events : list Event) (st : State) : State :=
  foldl (fun s e => handle e s) st events.

End Program.

(** ** The rest of the page: details, theme, intro

    [showCountryDetails], [toggleTheme] and [enterApp] write to parts of
    the document that the functions above never touch. The page is the
    state of those functions together with these parts. *)

Record Idd := {
  idd_root : option jsstring;
  idd_suffixes : option (list jsstring)
}.

(** [parts.join(separator)] *)
Fixpoint join (separator : jsstring) (parts : list jsstring) : jsstring :=
  match parts with
  | [] => []
  | [part] => part
  | part :: rest => part ++ separator ++ join separator rest
  end.

Section Details.

(** Population and area are numbers, shown through [toLocaleString],
    which depends on the locale of the browser. *)
Context {Number : Type} (toLocaleString : Number -> jsstring).

(** A record of the alpha endpoint, with the fields the details read. The
    fields the code tests before use are optional. *)
Record FullCountry := {
  full_flags_png : jsstring;
  full_name_common : jsstring;
  full_name_official : jsstring;
  full_capital : option (list jsstring);
  full_region : jsstring;
  full_subregion : option jsstring;
  full_population : Number;
  full_area : Number;
  full_timezones : list jsstring;
  full_idd : option Idd;
  full_googleMaps : jsstring;
  full_coatOfArms_png : option jsstring
}.

Inductive DetailsJson :=
| DArray (records : list FullCountry)
| DObject.

Inductive DetailsOutcome :=
| DetailsRejected
| DetailsResolved (data : DetailsJson).

(** What the modal shows. *)
Record DetailView := {
  shownFlag : jsstring;
  shownName : jsstring;
  shownOfficial : jsstring;
  shownCapital : jsstring;
  shownRegion : jsstring;
  shownSubregion : jsstring;
  shownPopulation : jsstring;
  shownArea : jsstring;
  shownTimezones : jsstring;
  shownDialCode : jsstring;
  shownMap : jsstring;
  shownCoatOfArms : jsstring
}.

Record Page := {
  app : State;
  detailRequests : list jsstring;
  modalBody : option DetailView;
  countryModalShown : bool;
  darkTheme : bool;
  themeIcon : jsstring;
  introShown : bool;
  mainAppShown : bool
}.

Definition onApp (f : State -> State) (p : Page) : Page :=
  {| app := f p.(app); detailRequests := p.(detailRequests);
     modalBody := p.(modalBody); countryModalShown := p.(countryModalShown);
     darkTheme := p.(darkTheme); themeIcon := p.(themeIcon);
     introShown := p.(introShown); mainAppShown := p.(mainAppShown) |}.

(** A value interpolated in a template: [undefined] prints as such. *)
Definition orUndefined (value : option jsstring) : jsstring :=
  match value with
  | Some text => text
  | None => js "undefined"
  end.

(** The dial code: the root with the first suffix when there is a root
    that is not empty, N/A otherwise. *)
Definition dialCodeOf (country : FullCountry) : jsstring :=
  match country.(full_idd) with
  | Some {| idd_root := Some (c :: root); idd_suffixes := suffixes |} =>
      (c :: root) ++ match suffixes with
                     | Some l => orUndefined (head l)
                     | None => []
                     end
  | _ => js "N/A"
  end.

Definition detailsOf (country : FullCountry) : DetailView :=
  {| shownFlag := country.(full_flags_png);
     shownName := country.(full_name_common);
     shownOfficial := country.(full_name_official);
     shownCapital := match country.(full_capital) with
                     | Some l => orUndefined (head l)
                     | None => js "N/A"
                     end;
     shownRegion := country.(full_region);
     shownSubregion := orUndefined country.(full_subregion);
     shownPopulation := toLocaleString country.(full_population);
     shownArea := toLocaleString country.(full_area);
     shownTimezones := join (js ", ") country.(full_timezones);
     shownDialCode := dialCodeOf country;
     shownMap := country.(full_googleMaps);
     shownCoatOfArms := match country.(full_coatOfArms_png) with
                        | Some (c :: png) => c :: png
                        | _ => country.(full_flags_png)
                        end |}.

Definition showCountryDetails (code : jsstring) (p : Page) : Page :=
  {| app := exec showLoader p.(app);
     detailRequests := p.(detailRequests) ++ [code];
     modalBody := p.(modalBody); countryModalShown := p.(countryModalShown);
     darkTheme := p.(darkTheme); themeIcon := p.(themeIcon);
     introShown := p.(introShown); mainAppShown := p.(mainAppShown) |}.

(** The [catch] of [showCountryDetails]. *)
Definition detailsFailed (err : JsError) (p : Page) : Page :=
  onApp (exec (hideLoader;; consoleLog (LogError err))) p.

(** The continuation of [showCountryDetails]: with no first record,
    reading [idd] of [undefined] throws, and the [catch] runs. *)
Definition settleDetails (o : DetailsOutcome) (p : Page) : Page :=
  match o with
  | DetailsRejected => detailsFailed NetworkError p
  | DetailsResolved data =>
      let p1 := onApp (exec hideLoader) p in
      match data with
      | DArray (country :: _) =>
          {| app := p1.(app); detailRequests := p1.(detailRequests);
             modalBody := Some (detailsOf country); countryModalShown := true;
             darkTheme := p1.(darkTheme); themeIcon := p1.(themeIcon);
             introShown := p1.(introShown); mainAppShown := p1.(mainAppShown) |}
      | _ => detailsFailed TypeError p1
      end
  end.

Definition toggleTheme (p : Page) : Page :=
  let dark := negb p.(darkTheme) in
  {| app := p.(app); detailRequests := p.(detailRequests);
     modalBody := p.(modalBody); countryModalShown := p.(countryModalShown);
     darkTheme := dark;
     themeIcon := if dark then js "dark.png" else js "light.png";
     introShown := p.(introShown); mainAppShown := p.(mainAppShown) |}.

Definition enterApp (p : Page) : Page :=
  {| app := p.(app); detailRequests := p.(detailRequests);
     modalBody := p.(modalBody); countryModalShown := p.(countryModalShown);
     darkTheme := p.(darkTheme); themeIcon := p.(themeIcon);
     introShown := false; mainAppShown := true |}.

(** A failed details lookup: the modal is as it was, the error is on the
    console, the loader is hidden, and nothing else of the page differs. *)
Definition detailsUnavailable (err : JsError) (p p' : Page) : Prop :=
  p' = onApp (fun st =>
         onEnv (set_console (st.(env).(console) ++ [LogError err]))
           (onView (set_loaderHidden true) st)) p.

End Details.

(** ** Vocabulary of the properties *)

(** The order of the lists in the words of the specification: by common
    name, the names compared by [localeCompare]. *)
Definition inNameOrder {host : Host} (a b : Country) : Prop :=
  localeCompare a.(name_common) b.(name_common) <= 0.

(** Two entities whose names [localeCompare] does not tell apart. *)
Definition sameRank {host : Host} (a b : Country) : Prop :=
  inNameOrder a b /\ inNameOrder b a.

#[export] Instance sameRank_dec {host : Host} (a b : Country) : Decision (sameRank a b).
Proof. unfold sameRank, inNameOrder. apply _. Defined.

(** [sorted] is [source] sorted by common name: the same entities, in
    ascending order of name, those of one rank in the order they have in
    [source]. *)
Definition sortedByName {host : Host} (source sorted : list Country) : Prop :=
  Permutation sorted source /\
  StronglySorted inNameOrder sorted /\
  forall c, filter (sameRank c) sorted = filter (sameRank c) source.

(** The common name of [c] contains [input], case ignored. *)
Definition containsIgnoringCase {host : Host} (input : jsstring) (c : Country) : Prop :=
  substring (toLowerCase input) (toLowerCase c.(name_common)).

(** [kept] is [l] without the elements that fail [P]. *)
Inductive keptOf {A} (P : A -> Prop) : list A -> list A -> Prop :=
| kept_nil : keptOf P [] []
| kept_yes x l kept : P x -> keptOf P l kept -> keptOf P (x :: l) (x :: kept)
| kept_no x l kept : ~ P x -> keptOf P l kept -> keptOf P (x :: l) kept.

(** [found] is made of the first [n] elements of [l] that satisfy [P], in
    the order of [l]; of all of them when [l] has fewer. *)
Definition firstMatches {A} (n : nat) (P : A -> Prop) (l found : list A) : Prop :=
  (length found <= n)%nat /\
  exists front back,
    l = front ++ back /\
    keptOf P front found /\
    (length found = n \/ back = []).


(** A computation that writes to the view and to nothing else. *)
Definition rendersOnly {A} (m : M A) : Prop :=
  forall st, exec m st = onView (fun _ => (exec m st).(view)) st.

(** The cursor is on an existing page, or on page 1 of an empty set. *)
Definition cursorInRange (st : State) : Prop :=
  1 <= st.(globals).(currentPage) <= Z.max 1 (totalPages st).

(** [st'] differs from [st] in the cursor and in what is rendered, at
    most. *)
Definition onlyPageMoved (st st' : State) : Prop :=
  st'.(globals).(paginatedCountries) = st.(globals).(paginatedCountries) /\
  st'.(globals).(allCountries) = st.(globals).(allCountries) /\
  st'.(globals).(selectedRating) = st.(globals).(selectedRating) /\
  st'.(inputs) = st.(inputs) /\
  st'.(form) = st.(form) /\
  st'.(env) = st.(env).

(** The dispatcher in the words of the specification: the filters are
    looked at in the order name, code, capital, region, and the first one
    that is not empty decides the lookup; when all are empty, everything
    is loaded. *)
Module Spec.

Definition Filter : Type := (jsstring -> Lookup) * jsstring.

Fixpoint firstNonEmpty (filters : list Filter) : Lookup :=
  match filters with
  | [] => LoadAll
  | (lookup, value) :: rest =>
      if isEmpty value then firstNonEmpty rest else lookup value
  end.

(** Every filter trimmed, as the specification has it. *)
Definition dispatch (i : Inputs) : Lookup :=
  firstNonEmpty
    [ (ByName, trim i.(searchName)); (ByCode, trim i.(searchCode));
      (ByCapital, trim i.(searchCapital)); (ByRegion, trim i.(searchRegion)) ].

(** The region taken as selected, the three text filters trimmed. *)
Definition dispatchExactRegion (i : Inputs) : Lookup :=
  firstNonEmpty
    [ (ByName, trim i.(searchName)); (ByCode, trim i.(searchCode));
      (ByCapital, trim i.(searchCapital)); (ByRegion, i.(searchRegion)) ].

End Spec.

(** An entity for the examples. *)
Definition countryNamed (name : string) : Country :=
  {| name_common := js name; cca2 := js "XX"; capital := None;
     region := js "Africa"; flags_png := js "flag.png" |}.

(** A failed lookup answered by the empty Result Set, with no notice. *)
Definition emptiedSilently (st st' : State) : Prop :=
  st'.(globals).(paginatedCountries) = [] /\
  st'.(globals).(currentPage) = 1 /\
  st'.(view).(countryList) = [NoCountriesFound] /\
  st'.(env).(alerts) = st.(env).(alerts).

(** A failed lookup answered by a notice, the Result Set and the cursor
    left as they were. *)
Definition noticeOnly (message : jsstring) (st st' : State) : Prop :=
  st'.(env).(alerts) = st.(env).(alerts) ++ [message] /\
  st'.(globals).(paginatedCountries) = st.(globals).(paginatedCountries) /\
  st'.(globals).(currentPage) = st.(globals).(currentPage).

(** The suggestion panel is hidden and holds nothing. *)
Definition panelClosed (st : State) : Prop :=
  st.(view).(suggestions) = [] /\ st.(view).(suggestionsShown) = false.

(** The entities offered in the suggestion panel, top to bottom. *)
Definition offered (st : State) : list Country :=
  map itemCountry st.(view).(suggestions).

(** [submitFeedback] stopped at a validation: the notice is raised, and
    neither the draft, nor the requests sent, nor anything else changes. *)
Definition abortedWith (message : jsstring) (st st' : State) : Prop :=
  st'.(env).(alerts) = st.(env).(alerts) ++ [message] /\
  st'.(globals).(selectedRating) = st.(globals).(selectedRating) /\
  st'.(form).(feedbackText) = st.(form).(feedbackText) /\
  st'.(env).(requests) = st.(env).(requests) /\
  st' = onEnv (set_alerts st'.(env).(alerts)) st.

(** The feedback form back in its idle state. *)
Definition feedbackReset (st : State) : Prop :=
  st.(globals).(selectedRating) = 0 /\
  st.(form).(feedbackText) = [] /\
  st.(form).(ratingText) = NoRatingText /\
  Forall (fun active => active = false) st.(form).(stars) /\
  st.(form).(successHidden) = true.

(** Settling the feedback request writes to the console only. *)
Definition unnoticed (st st' : State) : Prop :=
  st'.(globals) = st.(globals) /\
  st'.(form) = st.(form) /\
  st'.(view) = st.(view) /\
  st'.(env).(alerts) = st.(env).(alerts) /\
  st'.(env).(timers) = st.(env).(timers) /\
  st'.(env).(now) = st.(env).(now).

(** *** States for the examples *)

(** Ten countries named J, I, ..., A: a Result Set of two pages. *)
Definition tenCountries : list Country :=
  map (fun n => countryNamed (string_of_list_ascii [ascii_of_nat (74 - n)])) (seq 0 10).

Definition tenShown : State :=
  exec (applyPagination (host := AsciiHost.host) (VArray (map Some tenCountries))) initial.

(** The form with three stars selected and a comment typed in. *)
Definition ratedThree (comment : string) : State :=
  exec (setRating 3) (onForm (set_feedbackText (js comment)) initial).

(** *** What a page shows *)

Definition cardsOf (entities : list Country) : Listing :=
  map (fun c => CardBlock (mkCard c)) entities.

(** The entities of page [page], [itemsPerPage] to a page. *)
Definition pageOf (entities : list Country) (page : Z) : list Country :=
  take (Z.to_nat itemsPerPage) (drop (Z.to_nat ((page - 1) * itemsPerPage)) entities).

Definition isDefined (e : Element) : bool :=
  match e with Some _ => true | None => false end.

(** The elements of an array up to its first [undefined]. *)
Fixpoint definedPrefix (l : list Element) : list Country :=
  match l with
  | Some c :: l' => c :: definedPrefix l'
  | _ => []
  end.

(** The state with the cursor put on [page] and the page rendered. *)
Definition turnedTo (page : Z) (st : State) : State :=
  exec renderPage (onGlobals (set_currentPage page) st).

(** The numbers of the pages of a state, first to last. *)
Definition pageNumbers (st : State) : list Z :=
  map (fun k => Z.of_nat k + 1) (seq 0 (Z.to_nat (totalPages st))).

(** [op] run [n] times in a row. *)
Definition times (n : nat) (op : M unit) (st : State) : State :=
  Nat.iter n (exec op) st.

(** A lookup answered with the list [answer]: the Result Set is [shown],
    the cursor is on page 1, the first page (or the no-results view) is
    rendered, the loader is hidden and no notice is raised. *)
Definition answeredWith (shown : list Country) (st st' : State) : Prop :=
  st'.(globals).(paginatedCountries) = map Some shown /\
  st'.(globals).(currentPage) = 1 /\
  st'.(view).(countryList) =
    (if (length shown =? 0)%nat then [NoCountriesFound] else cardsOf (pageOf shown 1)) /\
  st'.(view).(countryCount) = Found (Z.of_nat (length shown)) /\
  st'.(view).(loaderHidden) = true /\
  st'.(env).(alerts) = st.(env).(alerts) /\
  st'.(globals).(allCountries) = st.(globals).(allCountries).

(** A feedback request worth storing: a rating that is not 0 and a
    comment that is trimmed and not empty. Any other request passes. *)
Definition validFeedback (r : Lookup) : Prop :=
  match r with
  | SaveFeedback rating comment => rating <> 0 /\ comment <> [] /\ trim comment = comment
  | _ => True
  end.

(** An array as [sort] leaves it: entities in order, then the elements
    that are [undefined]. *)
Definition sortedArray {host : Host} (l : list Element) : Prop :=
  exists entities k,
    l = map Some entities ++ replicate k None /\
    StronglySorted inNameOrder entities.

(** A string that does not start with white space. *)
Definition noLeading (s : jsstring) : Prop :=
  match s with
  | c :: _ => isWhiteSpace c = false
  | [] => True
  end.

(** From [st] to [st'], the Result Set is the same or was replaced by a
    sorted array, and the Catalog is the same or was replaced by a sorted
    list. *)
Definition dataStep {host : Host} (st st' : State) : Prop :=
  (st'.(globals).(paginatedCountries) = st.(globals).(paginatedCountries) \/
   exists l, st'.(globals).(paginatedCountries) = arraySort byCommonName l) /\
  (st'.(globals).(allCountries) = st.(globals).(allCountries) \/
   exists l, st'.(globals).(allCountries) = stableSort byCommonName l).

(** The suggestion panel holds at most 5 items, and is not shown empty. *)
Definition panelInOrder (st : State) : Prop :=
  (length st.(view).(suggestions) <= 5)%nat /\
  (st.(view).(suggestionsShown) = true -> st.(view).(suggestions) <> []).

(** From [st] to [st'] the panel kept its items, and was not opened. *)
Definition panelKept (st st' : State) : Prop :=
  st'.(view).(suggestions) = st.(view).(suggestions) /\
  (st'.(view).(suggestionsShown) = true -> st.(view).(suggestionsShown) = true).

(** The ten countries in the order of their names. *)
Definition tenSorted : list Country :=
  map (fun n => countryNamed (string_of_list_ascii [ascii_of_nat (65 + n)])) (seq 0 10).

(** A full record for the examples, numbers shown in decimal by the
    caller. *)
Definition chile : FullCountry (Number := jsstring) :=
  {| full_flags_png := js "cl.png"; full_name_common := js "Chile";
     full_name_official := js "Republic of Chile";
     full_capital := Some [js "Santiago"]; full_region := js "Americas";
     full_subregion := Some (js "South America");
     full_population := js "19116209"; full_area := js "756102";
     full_timezones := [js "UTC-06:00"; js "UTC-04:00"];
     full_idd := Some {| idd_root := Some (js "+5"); idd_suffixes := Some [js "6"] |};
     full_googleMaps := js "maps/chile"; full_coatOfArms_png := None |}.

(** The same record with a coat of arms. *)
Definition chileWithArms : FullCountry (Number := jsstring) :=
  {| full_flags_png := chile.(full_flags_png); full_name_common := chile.(full_name_common);
     full_name_official := chile.(full_name_official);
     full_capital := chile.(full_capital); full_region := chile.(full_region);
     full_subregion := chile.(full_subregion);
     full_population := chile.(full_population); full_area := chile.(full_area);
     full_timezones := chile.(full_timezones); full_idd := chile.(full_idd);
     full_googleMaps := chile.(full_googleMaps);
     full_coatOfArms_png := Some (js "cl-arms.png") |}.

(** * Properties *)

(** ** Strings *)

Section StringFacts.

Lemma startsWith_spec (s t : jsstring) :
  startsWith s t = true <-> exists post, s = t ++ post.
Proof.
  revert s. induction t as [|b t IH]; intros s; simpl.
  - split; [intros _; by exists s | done].
  - destruct s as [|a s].
    + split; [done | intros [post Hp]; discriminate].
    + rewrite andb_true_iff, N.eqb_eq, IH. split.
      * intros [-> [post ->]]. by exists post.
      * intros [post Hp]. injection Hp as -> ->. eauto.
Qed.

Lemma includes_spec (s t : jsstring) :
  includes s t = true <-> substring t s.
Proof.
  unfold substring. induction s as [|a s IH]; simpl.
  - rewrite orb_false_r, startsWith_spec. split.
    + intros [post Hp]. by exists [], post.
    + intros (pre & post & Hp). symmetry in Hp.
      apply app_eq_nil in Hp as [-> Hp]. apply app_eq_nil in Hp as [-> ->].
      by exists [].
  - rewrite orb_true_iff, startsWith_spec, IH. split.
    + intros [[post Hp] | (pre & post & Hp)].
      * by exists [], post.
      * exists (a :: pre), post. by rewrite Hp.
    + intros (pre & post & Hp). destruct pre as [|c pre].
      * left. by exists post.
      * right. injection Hp as -> ->. eauto.
Qed.

Lemma trimStart_blank (s : jsstring) : trimStart s = [] <-> blank s.
Proof.
  unfold blank. induction s as [|c s IH]; simpl.
  - split; [constructor | done].
  - destruct (isWhiteSpace c) eqn:Hc.
    + rewrite IH. split; [by constructor | by inversion 1].
    + split; [done | inversion 1; congruence].
Qed.

Lemma trimStart_head (s : jsstring) c s' :
  trimStart s = c :: s' -> isWhiteSpace c = false.
Proof.
  induction s as [|d s IH]; simpl; [done |].
  destruct (isWhiteSpace d) eqn:Hd; [done | congruence].
Qed.

Lemma trimStart_suffix (s : jsstring) : exists pre, blank pre /\ s = pre ++ trimStart s.
Proof.
  induction s as [|c s (pre & Hpre & IH)]; simpl.
  - exists []. split; [constructor | done].
  - destruct (isWhiteSpace c) eqn:Hc.
    + exists (c :: pre). split; [by constructor | by rewrite IH at 1].
    + exists []. split; [constructor | done].
Qed.

Lemma blank_rev (s : jsstring) : blank (rev s) <-> blank s.
Proof.
  unfold blank. split; intros H.
  - rewrite <- (rev_involutive s). by apply List.Forall_rev.
  - by apply List.Forall_rev.
Qed.

Lemma trimEnd_blank (s : jsstring) : trimEnd s = [] <-> blank s.
Proof.
  unfold trimEnd. rewrite <- blank_rev, <- trimStart_blank.
  split; [intros H | by intros ->].
  apply (f_equal (@rev _)) in H. by rewrite rev_involutive in H.
Qed.

(** The trimmed string is empty exactly when the string is white space
    only. *)
Lemma trim_blank (s : jsstring) : trim s = [] <-> blank s.
Proof.
  unfold trim. rewrite trimEnd_blank. split.
  - intros Hb. destruct (trimStart s) as [|c s'] eqn:Hs.
    + by apply trimStart_blank.
    + apply trimStart_head in Hs. inversion Hb; congruence.
  - intros Hb. apply trimStart_blank in Hb. rewrite Hb. constructor.
Qed.

Lemma isEmpty_true (s : jsstring) : isEmpty s = true <-> s = [].
Proof. by destruct s. Qed.

Lemma isEmpty_false (s : jsstring) : isEmpty s = false <-> s <> [].
Proof. by destruct s. Qed.

End StringFacts.

(** ** Arrays *)

Section ArrayFacts.

Context {A : Type}.

Lemma slice_from_start (l : list A) (n : Z) :
  0 <= n -> slice l 0 n = take (Z.to_nat n) l.
Proof.
  intros Hn. unfold slice, relativeIndex.
  change (0 <? 0) with false. cbv iota.
  destruct (Z.ltb_spec n 0) as [|_]; [lia |].
  replace (Z.min 0 (Z.of_nat (length l))) with 0 by lia.
  rewrite Z.sub_0_r. change (Z.to_nat 0) with 0%nat. rewrite drop_0.
  destruct (Z.min_spec n (Z.of_nat (length l))) as [[_ ->]|[Hle ->]]; [done |].
  rewrite Nat2Z.id, firstn_all. symmetry. apply take_ge. lia.
Qed.

End ArrayFacts.

(** ** Sorting *)

Section SortFacts.

Context {A : Type} (compareFn : A -> A -> Z).

Local Abbreviation precedes := (before compareFn).
Local Abbreviation ties := (tied compareFn).

Lemma insertSorted_perm (x : A) (l : list A) :
  Permutation (insertSorted compareFn x l) (x :: l).
Proof.
  induction l as [|y l IH]; simpl; [done |].
  destruct (compareFn x y <=? 0); [done |].
  rewrite IH. apply perm_swap.
Qed.

Lemma stableSort_perm (l : list A) : Permutation (stableSort compareFn l) l.
Proof.
  induction l as [|x l IH]; simpl; [done |].
  unfold stableSort in *. simpl. rewrite insertSorted_perm. by constructor.
Qed.

Lemma stableSort_length (l : list A) : length (stableSort compareFn l) = length l.
Proof. apply Permutation_length, stableSort_perm. Qed.

Lemma insertSorted_snoc (x y : A) (l : list A) :
  precedes x y ->
  insertSorted compareFn x (l ++ [y]) = insertSorted compareFn x l ++ [y].
Proof.
  intros Hxy. induction l as [|z l IH]; simpl.
  - by destruct (Z.leb_spec (compareFn x y) 0); [| unfold before in Hxy; lia].
  - destruct (compareFn x z <=? 0); [done | by rewrite IH].
Qed.

(** An element that nothing of [l] comes after stays last. *)
Lemma stableSort_snoc (y : A) (l : list A) :
  Forall (fun x => precedes x y) l ->
  stableSort compareFn (l ++ [y]) = stableSort compareFn l ++ [y].
Proof.
  induction 1 as [|x l Hx Hl IH]; [done |].
  unfold stableSort in *. simpl. rewrite IH. by apply insertSorted_snoc.
Qed.

Section Consistent.

Hypothesis total : forall a b, precedes a b \/ precedes b a.
Hypothesis trans : forall a b c, precedes a b -> precedes b c -> precedes a c.

Lemma insertSorted_sorted (x : A) (l : list A) :
  StronglySorted precedes l -> StronglySorted precedes (insertSorted compareFn x l).
Proof.
  induction 1 as [|y l Hl IH Hy]; simpl.
  - repeat constructor.
  - destruct (Z.leb_spec (compareFn x y) 0) as [Hxy|Hxy].
    + constructor; [by constructor |].
      constructor; [done |].
      revert Hy. apply List.Forall_impl. intros z Hz. by eapply trans.
    + constructor; [done |].
      rewrite insertSorted_perm. constructor; [| done].
      destruct (total x y) as [H|H]; [unfold before in H; lia | done].
Qed.

Lemma stableSort_sorted (l : list A) : StronglySorted precedes (stableSort compareFn l).
Proof.
  induction l as [|x l IH]; [constructor |].
  by apply insertSorted_sorted.
Qed.

Lemma tied_insertSorted (a x : A) (l : list A) :
  List.filter (ties a) (insertSorted compareFn x l) =
  List.filter (ties a) (x :: l).
Proof.
  induction l as [|y l IH]; [done |].
  simpl insertSorted. destruct (Z.leb_spec (compareFn x y) 0) as [Hxy|Hxy]; [done |].
  simpl in *. rewrite IH.
  destruct (ties a x) eqn:Hax; [| done].
  destruct (ties a y) eqn:Hay; [| done].
  unfold tied in *. rewrite !andb_true_iff, !Z.leb_le in *.
  assert (precedes x y) by (apply (trans _ a); unfold before; lia).
  unfold before in *. lia.
Qed.

(** The sort is stable: elements that are tied keep their order. *)
Lemma stableSort_stable (a : A) (l : list A) :
  List.filter (ties a) (stableSort compareFn l) = List.filter (ties a) l.
Proof.
  induction l as [|x l IH]; [done |].
  unfold stableSort in *. simpl foldr. rewrite tied_insertSorted.
  simpl. by rewrite IH.
Qed.

End Consistent.

Lemma arraySort_defined (l : list A) :
  arraySort compareFn (map Some l) = map Some (stableSort compareFn l).
Proof.
  unfold arraySort. cbv zeta.
  assert (omap id (map Some l) = l) as ->.
  { induction l as [|x l IH]; [done |]. simpl. f_equal. exact IH. }
  rewrite length_map, Nat.sub_diag. apply app_nil_r.
Qed.

Lemma arraySort_length (l : list (option A)) :
  length (arraySort compareFn l) = length l.
Proof.
  unfold arraySort. cbv zeta.
  rewrite length_app, length_map, stableSort_length, length_replicate.
  assert (length (omap id l) <= length l)%nat; [| lia].
  induction l as [|[x|] l IH]; [done | |].
  - change (S (length (omap id l)) <= S (length l))%nat. lia.
  - change (length (omap id l) <= S (length l))%nat. lia.
Qed.

End SortFacts.

(** ** Running computations *)

Section Running.

Context {A B : Type}.

Lemma run_bind (m : M A) (k : A -> M B) (st : State) :
  (m ≫= k) st =
  match m st with
  | (Normal a, st') => k a st'
  | (Throw e, st') => (Throw e, st')
  end.
Proof. done. Qed.

Lemma exec_bind (m : M A) (k : A -> M B) (st : State) :
  exec (m ≫= k) st =
  match completion m st with
  | Normal a => exec (k a) (exec m st)
  | Throw _ => exec m st
  end.
Proof.
  unfold exec, completion. rewrite run_bind. by destruct (m st) as [[a|e] st'].
Qed.

Lemma exec_get (k : State -> M B) (st : State) :
  exec (get ≫= k) st = exec (k st) st.
Proof. done. Qed.

Lemma exec_modify (f : State -> State) (k : unit -> M B) (st : State) :
  exec (modify f ≫= k) st = exec (k tt) (f st).
Proof. done. Qed.

Lemma exec_ret (a : A) (st : State) : exec (mret a) st = st.
Proof. done. Qed.

Lemma exec_throw (e : JsError) (st : State) : exec (throw (A := A) e) st = st.
Proof. done. Qed.

Lemma exec_tryCatch (body : M A) (handler : JsError -> M A) (st : State) :
  exec (tryCatch body handler) st =
  match completion body st with
  | Normal _ => exec body st
  | Throw e => exec (handler e) (exec body st)
  end.
Proof.
  unfold exec, completion, tryCatch. by destruct (body st) as [[a|e] st'].
Qed.

End Running.

(** ** Rendering leaves the program's data alone *)

Section Rendering.

Context {host : Host}.

Lemma rendersOnly_ret {A} (a : A) : rendersOnly (mret a).
Proof. by intros []. Qed.

Lemma rendersOnly_throw {A} (e : JsError) : rendersOnly (throw (A := A) e).
Proof. by intros []. Qed.

Lemma rendersOnly_get : rendersOnly get.
Proof. by intros []. Qed.

Lemma rendersOnly_modify (f : View -> View) : rendersOnly (modify (onView f)).
Proof. by intros []. Qed.

Lemma rendersOnly_bind {A B} (m : M A) (k : A -> M B) :
  rendersOnly m -> (forall a, rendersOnly (k a)) -> rendersOnly (m ≫= k).
Proof.
  intros Hm Hk st. rewrite exec_bind.
  destruct (completion m st) as [a|e]; [| apply Hm].
  pose proof (Hm st) as E1. pose proof (Hk a (exec m st)) as E2.
  set (s1 := exec m st) in *. set (s2 := exec (k a) s1) in *.
  rewrite E2, E1. done.
Qed.

Lemma rendersOnly_forEach {A} (f : A -> M unit) (l : list A) :
  (forall x, rendersOnly (f x)) -> rendersOnly (forEach f l).
Proof.
  intros Hf. induction l as [|x l IH]; simpl.
  - apply rendersOnly_ret.
  - apply rendersOnly_bind; auto.
Qed.

Create HintDb render.

Hint Resolve rendersOnly_ret rendersOnly_throw rendersOnly_get
  rendersOnly_modify : render.

Ltac renders :=
  repeat first
    [ solve [auto with render]
    | apply rendersOnly_forEach; intros ?
    | apply rendersOnly_bind; [| intros ?]
    | match goal with |- rendersOnly (if ?b then _ else _) => destruct b end
    | match goal with |- rendersOnly (match ?x with _ => _ end) => destruct x end ].

Lemma rendersOnly_updateCountryCount n : rendersOnly (updateCountryCount n).
Proof. unfold updateCountryCount. renders. Qed.

Lemma rendersOnly_showNoCountriesFound : rendersOnly showNoCountriesFound.
Proof. unfold showNoCountriesFound, updateCountryCount. renders. Qed.

Lemma rendersOnly_displayCountries l : rendersOnly (displayCountries l).
Proof. unfold displayCountries, updateCountryCount, appendCard. renders. Qed.

Lemma rendersOnly_updatePaginationControls : rendersOnly updatePaginationControls.
Proof. unfold updatePaginationControls. renders. Qed.

Hint Resolve rendersOnly_showNoCountriesFound rendersOnly_displayCountries
  rendersOnly_updatePaginationControls : render.

Lemma rendersOnly_renderPage : rendersOnly renderPage.
Proof. unfold renderPage. renders. Qed.

Lemma renderPage_globals st : (exec renderPage st).(globals) = st.(globals).
Proof. by rewrite rendersOnly_renderPage. Qed.

Lemma renderPage_inputs st : (exec renderPage st).(inputs) = st.(inputs).
Proof. by rewrite rendersOnly_renderPage. Qed.

Lemma renderPage_form st : (exec renderPage st).(form) = st.(form).
Proof. by rewrite rendersOnly_renderPage. Qed.

Lemma renderPage_env st : (exec renderPage st).(env) = st.(env).
Proof. by rewrite rendersOnly_renderPage. Qed.

End Rendering.

(** ** Pagination *)

Lemma ceilDiv_spec (n d : Z) :
  0 < d -> (ceilDiv n d - 1) * d < n <= ceilDiv n d * d.
Proof.
  intros Hd. unfold ceilDiv.
  pose proof (Z.div_mod (- n) d) as Hdm. pose proof (Z.mod_pos_bound (- n) d Hd). nia.
Qed.

Lemma ceilDiv_nonneg (n d : Z) : 0 < d -> 0 <= n -> 0 <= ceilDiv n d.
Proof. intros Hd Hn. pose proof (ceilDiv_spec n d Hd). nia. Qed.

Section Pagination.

Context {host : Host}.

Lemma prevPage_globals st :
  (exec prevPage st).(globals) =
  if st.(globals).(currentPage) >? 1
  then set_currentPage (st.(globals).(currentPage) - 1) st.(globals)
  else st.(globals).
Proof.
  unfold prevPage. rewrite exec_get.
  destruct (st.(globals).(currentPage) >? 1); [| done].
  by rewrite exec_modify, renderPage_globals.
Qed.

Lemma nextPage_globals st :
  (exec nextPage st).(globals) =
  if st.(globals).(currentPage) <? totalPages st
  then set_currentPage (st.(globals).(currentPage) + 1) st.(globals)
  else st.(globals).
Proof.
  unfold nextPage. rewrite exec_get.
  destruct (st.(globals).(currentPage) <? totalPages st); [| done].
  by rewrite exec_modify, renderPage_globals.
Qed.

Lemma applyPagination_globals countries st :
  (exec (applyPagination countries) st).(globals) =
  match countries with
  | VArray l =>
      set_currentPage 1 (set_paginatedCountries (arraySort byCommonName l) st.(globals))
  | VObject => st.(globals)
  end.
Proof.
  destruct countries as [l|]; [| done].
  unfold applyPagination. by rewrite !exec_modify, renderPage_globals.
Qed.

Lemma applyPagination_rest countries st :
  let st' := exec (applyPagination countries) st in
  st'.(inputs) = st.(inputs) /\ st'.(form) = st.(form) /\ st'.(env) = st.(env).
Proof.
  destruct countries as [l|]; [| done].
  unfold applyPagination. cbv zeta.
  by rewrite !exec_modify, renderPage_inputs, renderPage_form, renderPage_env.
Qed.

Lemma navigation_rest (op : M unit) st :
  op = prevPage \/ op = nextPage ->
  let st' := exec op st in
  st'.(inputs) = st.(inputs) /\ st'.(form) = st.(form) /\ st'.(env) = st.(env).
Proof.
  intros [-> | ->]; cbv zeta.
  - unfold prevPage. rewrite exec_get.
    destruct (st.(globals).(currentPage) >? 1); [| done].
    by rewrite !exec_modify, renderPage_inputs, renderPage_form, renderPage_env.
  - unfold nextPage. rewrite exec_get.
    destruct (st.(globals).(currentPage) <? totalPages st); [| done].
    by rewrite !exec_modify, renderPage_inputs, renderPage_form, renderPage_env.
Qed.

(** The page count depends on the Result Set only. *)
Lemma totalPages_ext st st' :
  st'.(globals).(paginatedCountries) = st.(globals).(paginatedCountries) ->
  totalPages st' = totalPages st.
Proof. unfold totalPages. by intros ->. Qed.

Lemma totalPages_nonneg st : 0 <= totalPages st.
Proof. apply ceilDiv_nonneg; [done | lia]. Qed.

End Pagination.

(** ** The example host is consistent *)

Section AsciiHostFacts.

Import AsciiHost.

Lemma compareUnits_range a b :
  compareUnits a b = -1 \/ compareUnits a b = 0 \/ compareUnits a b = 1.
Proof.
  revert b. induction a as [|x a IH]; intros [|y b]; simpl; auto.
  destruct (x ?= y)%N; auto.
Qed.

Lemma compareUnits_antisym a b : compareUnits b a = - compareUnits a b.
Proof.
  revert b. induction a as [|x a IH]; intros [|y b]; simpl; try done.
  rewrite (N.compare_antisym x y). destruct (x ?= y)%N; simpl; auto.
Qed.

Lemma compareUnits_trans a b c :
  compareUnits a b <= 0 -> compareUnits b c <= 0 -> compareUnits a c <= 0.
Proof.
  revert b c. induction a as [|x a IH]; intros [|y b] [|z c]; simpl; try lia.
  destruct (N.compare_spec x y) as [->|Hxy|Hxy]; [| | lia].
  - destruct (N.compare_spec y z) as [->|Hyz|Hyz]; [| lia | lia].
    apply IH.
  - intros _. destruct (N.compare_spec y z) as [->|Hyz|Hyz]; [| | lia]; intros _.
    + destruct (N.compare_spec x z); lia.
    + destruct (N.compare_spec x z); lia.
Qed.

#[export] Instance host_consistent : ConsistentHost host.
Proof.
  split.
  - intros a b. simpl. rewrite (compareUnits_antisym a b).
    destruct (compareUnits_range a b) as [-> | [-> | ->]]; lia.
  - intros a b c. apply compareUnits_trans.
Qed.

End AsciiHostFacts.

(** ** The Result Set and its cursor *)

Section ResultSet.

Context {host : Host}.

Lemma filter_reflect {A} (P : A -> Prop) `{!forall x, Decision (P x)}
    (p : A -> bool) (l : list A) :
  (forall x, p x = true <-> P x) -> filter P l = List.filter p l.
Proof.
  intros Hp. induction l as [|x l IH]; [done |].
  simpl List.filter. destruct (p x) eqn:Hx.
  - rewrite filter_cons_True by (by apply Hp). by rewrite IH.
  - rewrite filter_cons_False; [done |]. rewrite <- Hp. congruence.
Qed.

Lemma tied_sameRank (c x : Country) : tied byCommonName c x = true <-> sameRank c x.
Proof.
  unfold tied, sameRank, inNameOrder, byCommonName.
  by rewrite andb_true_iff, !Z.leb_le.
Qed.

Lemma stableSort_sortedByName (consistent : ConsistentHost host) (entities : list Country) :
  sortedByName entities (stableSort byCommonName entities).
Proof.
  assert (forall a b : Country, before byCommonName a b \/ before byCommonName b a)
    as total by (intros a b; apply compare_total).
  assert (forall a b c : Country,
    before byCommonName a b -> before byCommonName b c -> before byCommonName a c)
    as trans by (intros a b c; apply compare_trans).
  split; [apply stableSort_perm |]. split.
  - by apply (stableSort_sorted byCommonName).
  - intros c. rewrite !(filter_reflect _ (tied byCommonName c)) by apply tied_sameRank.
    by apply stableSort_stable.
Qed.

(** C2. Whatever list of entities [applyPagination] is given, the Result
    Set it leaves is that list sorted by common name under [localeCompare]
    (the same entities, in ascending order of name, entities of one rank
    in the order they came), and [currentPage] is 1. *)
Theorem applyPagination_sorts_and_rewinds
    (consistent : ConsistentHost host) (entities : list Country) (st : State) :
  let st' := exec (applyPagination (VArray (map Some entities))) st in
  exists sorted,
    st'.(globals).(paginatedCountries) = map Some sorted /\
    sortedByName entities sorted /\
    st'.(globals).(currentPage) = 1.
Proof.
  cbv zeta. rewrite applyPagination_globals, arraySort_defined. simpl.
  exists (stableSort byCommonName entities).
  split; [done |]. split; [by apply stableSort_sortedByName | done].
Qed.

Lemma applyPagination_cursorInRange countries st :
  cursorInRange st -> cursorInRange (exec (applyPagination countries) st).
Proof.
  unfold cursorInRange, totalPages. rewrite applyPagination_globals.
  destruct countries; simpl; lia.
Qed.

Lemma prevPage_cursorInRange st :
  cursorInRange st -> cursorInRange (exec prevPage st).
Proof.
  unfold cursorInRange, totalPages. rewrite prevPage_globals.
  destruct (Z.gtb_spec (currentPage (globals st)) 1); simpl; lia.
Qed.

Lemma nextPage_cursorInRange st :
  cursorInRange st -> cursorInRange (exec nextPage st).
Proof.
  unfold cursorInRange, totalPages. rewrite nextPage_globals. unfold totalPages.
  destruct (Z.ltb_spec (currentPage (globals st))
              (ceilDiv (Z.of_nat (length (paginatedCountries (globals st)))) itemsPerPage));
    simpl; lia.
Qed.

(** C3. The cursor invariant holds initially, and [applyPagination],
    [prevPage] and [nextPage] preserve it, whatever they are given and
    however they complete. *)
Theorem cursorInRange_invariant :
  cursorInRange initial /\
  forall st, cursorInRange st ->
    (forall countries, cursorInRange (exec (applyPagination countries) st)) /\
    cursorInRange (exec prevPage st) /\
    cursorInRange (exec nextPage st).
Proof.
  split; [by vm_compute |].
  intros st Hst. split; [| split].
  - intros countries. by apply applyPagination_cursorInRange.
  - by apply prevPage_cursorInRange.
  - by apply nextPage_cursorInRange.
Qed.

(** C10. [prevPage] and [nextPage] leave the Result Set as it is, in
    content and order; of the program's data they change [currentPage]
    only (and they render). *)
Theorem navigation_keeps_result_set (st : State) :
  onlyPageMoved st (exec prevPage st) /\ onlyPageMoved st (exec nextPage st).
Proof.
  unfold onlyPageMoved. split.
  - rewrite prevPage_globals.
    destruct (navigation_rest prevPage st) as (-> & -> & ->); [by left |].
    by destruct (currentPage (globals st) >? 1).
  - rewrite nextPage_globals.
    destruct (navigation_rest nextPage st) as (-> & -> & ->); [by right |].
    by destruct (currentPage (globals st) <? totalPages st).
Qed.

End ResultSet.

(** ** The dispatcher and the continuations of the lookups *)

Section Dispatch.

Context {host : Host}.

Lemma searchCountries_run st :
  exec searchCountries st =
  onEnv (fun e => set_requests (e.(requests) ++ [Spec.dispatchExactRegion st.(inputs)]) e)
    (onView (fun w =>
       set_loaderHidden false (set_placeholderShown false w)) st).
Proof.
  unfold searchCountries, Spec.dispatchExactRegion, Spec.firstNonEmpty.
  rewrite exec_modify, exec_get. simpl inputs.
  destruct (isEmpty (trim (searchName (inputs st)))); [| done].
  destruct (isEmpty (trim (searchCode (inputs st)))); [| done].
  destruct (isEmpty (trim (searchCapital (inputs st)))); [| done].
  destruct (isEmpty (searchRegion (inputs st))); done.
Qed.

(** One call of [searchCountries] sends exactly one request: that of the
    first non-empty filter in the order name, code, capital, region, where
    name, code and capital are trimmed first and the region is taken as it
    is; with no such filter, the request for all countries. The Result Set
    is not touched by the call itself. *)
Theorem searchCountries_sends_first_filter (st : State) :
  let st' := exec searchCountries st in
  st'.(env).(requests) =
    st.(env).(requests) ++ [Spec.dispatchExactRegion st.(inputs)] /\
  st'.(globals) = st.(globals).
Proof. cbv zeta. by rewrite searchCountries_run. Qed.

(** C1. One call of [searchCountries] sends exactly one request: the one
    of the first filter, in the order name, code, capital, region, that is
    not empty once trimmed; the request for all countries when all four
    are empty. The region is the value of a select: a value that trimming
    leaves as it is. *)
Theorem searchCountries_dispatches_first_filter (st : State) :
  trim st.(inputs).(searchRegion) = st.(inputs).(searchRegion) ->
  (exec searchCountries st).(env).(requests) =
  st.(env).(requests) ++ [Spec.dispatch st.(inputs)].
Proof.
  intros Hregion. rewrite searchCountries_run. simpl.
  unfold Spec.dispatch, Spec.dispatchExactRegion. by rewrite Hregion.
Qed.

(** With a name that is not blank, the name lookup is the one that runs,
    whatever the other filters hold. *)
Corollary name_takes_precedence (st : State) :
  ~ blank st.(inputs).(searchName) ->
  (exec searchCountries st).(env).(requests) =
  st.(env).(requests) ++ [ByName (trim st.(inputs).(searchName))].
Proof.
  intros Hname. rewrite searchCountries_run. simpl. do 2 f_equal.
  unfold Spec.dispatchExactRegion. simpl.
  destruct (isEmpty (trim (searchName (inputs st)))) eqn:E; [| done].
  apply isEmpty_true, trim_blank in E. done.
Qed.

(** With the three text filters blank and no region selected, all
    countries are requested. *)
Corollary no_filter_loads_all (st : State) :
  blank st.(inputs).(searchName) ->
  blank st.(inputs).(searchCode) ->
  blank st.(inputs).(searchCapital) ->
  st.(inputs).(searchRegion) = [] ->
  (exec searchCountries st).(env).(requests) = st.(env).(requests) ++ [LoadAll].
Proof.
  intros Hname Hcode Hcapital Hregion. rewrite searchCountries_run. simpl.
  unfold Spec.dispatchExactRegion. simpl.
  apply trim_blank in Hname, Hcode, Hcapital.
  by rewrite Hname, Hcode, Hcapital, Hregion.
Qed.

Lemma settle_rejected_byName key st :
  exec (settle (ByName key) Rejected) st =
  exec (applyPagination (VArray [])) (onView (set_loaderHidden true) st).
Proof. done. Qed.

Lemma applyPagination_empty st :
  exec (applyPagination (VArray [])) st =
  onView (fun w => set_countryCount (Found 0)
            (set_pagination None (set_countryList [NoCountriesFound] w)))
    (onGlobals (fun g => set_currentPage 1 (set_paginatedCountries [] g)) st).
Proof. done. Qed.

(** C4, as the code has it. A name lookup whose request fails, or whose
    answer is not a list, silently empties the Result Set: page 1, the
    no-results view, no notice. A capital or region lookup whose request
    fails raises its notice and leaves the Result Set and the cursor as
    they were. *)
Theorem failed_lookups (key : jsstring) (st : State) :
  emptiedSilently st (exec (settle (ByName key) Rejected) st) /\
  emptiedSilently st (exec (settle (ByName key) (Resolved JObject)) st) /\
  noticeOnly (js "No country with that capital!") st
    (exec (settle (ByCapital key) Rejected) st) /\
  noticeOnly (js "Region not found!") st
    (exec (settle (ByRegion key) Rejected) st).
Proof. done. Qed.

(** A code lookup whose promise is rejected raises the invalid-code notice
    and changes neither the Result Set nor the cursor: nothing but the
    loader and the notice differs. *)
Theorem failed_code_lookup (key : jsstring) (st : State) :
  let st' := exec (settle (ByCode key) Rejected) st in
  noticeOnly (js "Invalid country code!") st st' /\
  st' = onEnv (set_alerts st'.(env).(alerts)) (onView (set_loaderHidden true) st).
Proof. done. Qed.

(** When the request succeeds with a body that holds no record (an object,
    or an empty list), the same notice is raised from the continuation
    itself, after [applyPagination] has stored the one-element list
    [[undefined]]. *)
Lemma code_lookup_without_record key data st :
  first data = None ->
  let st' := exec (settle (ByCode key) (Resolved data)) st in
  st'.(env).(alerts) = st.(env).(alerts) ++ [js "Invalid country code!"] /\
  st'.(globals).(paginatedCountries) = [None] /\
  st'.(globals).(currentPage) = 1.
Proof. intros Hdata. cbv zeta. simpl. rewrite Hdata. done. Qed.

End Dispatch.

Section DispatchExamples.

#[local] Existing Instance AsciiHost.host.

(** The region is not trimmed: were the region field to hold white space
    only, the region lookup would be sent. *)
Lemma searchCountries_blank_region :
  let st := withFilters [] [] [] (js " ") initial in
  (exec searchCountries st).(env).(requests) = [ByRegion (js " ")] /\
  Spec.dispatch st.(inputs) = LoadAll /\
  (exec searchCountries st).(env).(requests) <>
    st.(env).(requests) ++ [Spec.dispatch st.(inputs)].
Proof. by vm_compute. Qed.

(** C4, as stated, fails for the capital lookup: with ten countries on
    display, a failed request leaves all ten in the Result Set and raises a
    notice. *)
Lemma failed_capital_lookup_keeps_results :
  let shown := map (fun name => Some (countryNamed name)) ["Chad"; "Chile"; "China"]%string in
  let st := exec (applyPagination (VArray shown)) initial in
  let st' := exec (settle (ByCapital (js "Atlantis")) Rejected) st in
  st'.(globals).(paginatedCountries) = shown /\
  st'.(env).(alerts) = [js "No country with that capital!"] /\
  ~ emptiedSilently st st'.
Proof.
  vm_compute. split; [done |]. split; [done |].
  intros (Hset & _). discriminate Hset.
Qed.

End DispatchExamples.

(** ** Autocomplete *)

Section Autocomplete.

Context {host : Host}.

Lemma forEach_items (input : jsstring) (l : list Country) (st : State) :
  exec (forEach (fun c => modify (onView (fun w =>
          set_suggestions (w.(suggestions) ++ [mkItem input c]) w))) l) st =
  onView (fun w => set_suggestions (w.(suggestions) ++ map (mkItem input) l) w) st.
Proof.
  revert st. induction l as [|c l IH]; intros [g i w f e]; simpl forEach.
  - destruct w. unfold onView, set_suggestions. simpl. by rewrite app_nil_r.
  - rewrite exec_modify, IH. destruct w. unfold onView, set_suggestions. simpl.
    by rewrite <- app_assoc.
Qed.

Lemma showSuggestions_run (input : jsstring) (st : State) :
  let matches := suggest input st.(globals).(allCountries) in
  exec (showSuggestions input) st =
  onView (fun w =>
      set_suggestionsShown (negb (isEmpty input) && negb (length matches =? 0)%nat)
        (set_suggestions (if isEmpty input then [] else map (mkItem input) matches) w))
    st.
Proof.
  cbv zeta. unfold showSuggestions. rewrite exec_modify.
  destruct (isEmpty input); [done |].
  rewrite exec_get. simpl globals.
  destruct (length (suggest input (allCountries (globals st))) =? 0)%nat eqn:E.
  - apply Nat.eqb_eq, nil_length_inv in E. rewrite E. done.
  - rewrite exec_modify, forEach_items. by destruct st as [g i [] f e].
Qed.

Lemma offered_run (input : jsstring) (st : State) :
  offered (exec (showSuggestions input) st) =
  if isEmpty input then [] else suggest input st.(globals).(allCountries).
Proof.
  rewrite showSuggestions_run. unfold offered. simpl.
  destruct (isEmpty input); [done |].
  rewrite map_map. simpl. apply map_id.
Qed.

Lemma suggest_take (input : jsstring) (catalog : list Country) :
  suggest input catalog = take 5 (List.filter (matchesInput input) catalog).
Proof. unfold suggest. by rewrite slice_from_start. Qed.

Lemma filter_sublist {A} (p : A -> bool) (l : list A) : sublist (List.filter p l) l.
Proof.
  induction l as [|x l IH]; simpl; [constructor |].
  destruct (p x); by constructor.
Qed.

Lemma matchesInput_contains (input : jsstring) (c : Country) :
  matchesInput input c = true <-> containsIgnoringCase input c.
Proof. apply includes_spec. Qed.

Lemma firstMatches_take {A} (P : A -> Prop) (p : A -> bool) (n : nat) (l : list A) :
  (forall x, p x = true <-> P x) ->
  firstMatches n P l (take n (List.filter p l)).
Proof.
  intros Hp. split; [rewrite length_take; lia |].
  revert n. induction l as [|x l IH]; intros n.
  - exists [], []. simpl List.filter. rewrite take_nil.
    repeat split; [constructor | by right].
  - destruct n as [|n].
    + exists [], (x :: l). repeat split; [constructor | by left].
    + simpl List.filter. destruct (p x) eqn:Hx.
      * destruct (IH n) as (front & back & -> & Hkept & Hend).
        exists (x :: front), back. split; [done |]. split.
        -- simpl. constructor; [by apply Hp | done].
        -- simpl. destruct Hend as [-> | ->]; [by left | by right].
      * destruct (IH (S n)) as (front & back & -> & Hkept & Hend).
        exists (x :: front), back. split; [done |]. split; [| done].
        constructor; [| done]. rewrite <- Hp. congruence.
Qed.

Lemma filter_none {A} (P : A -> Prop) (p : A -> bool) (l : list A) :
  (forall x, p x = true <-> P x) ->
  List.filter p l = [] <-> Forall (fun x => ~ P x) l.
Proof.
  intros Hp. induction l as [|x l IH]; simpl.
  - split; [constructor | done].
  - destruct (p x) eqn:Hx.
    + split; [done |]. inversion 1 as [|? ? Hnot]. destruct Hnot. by apply Hp.
    + rewrite IH. split.
      * intros Hl. constructor; [| done]. rewrite <- Hp. congruence.
      * by inversion 1.
Qed.

(** C6. For a non-empty input, the panel offers at most 5 entities; the
    lower-cased common name of each contains the lower-cased input; they
    are the first 5 entities of the Catalog with such a name (all of them
    when there are fewer), in the Catalog's order. *)
Theorem suggestions_are_first_matches (input : jsstring) (st : State) :
  input <> [] ->
  let catalog := st.(globals).(allCountries) in
  let shown := offered (exec (showSuggestions input) st) in
  (length shown <= 5)%nat /\
  Forall (containsIgnoringCase input) shown /\
  sublist shown catalog /\
  firstMatches 5 (containsIgnoringCase input) catalog shown.
Proof.
  intros Hin. cbv zeta. rewrite offered_run.
  apply isEmpty_false in Hin. rewrite Hin, suggest_take.
  split; [rewrite length_take; lia |]. split; [| split].
  - apply Forall_take, Forall_forall. intros c Hc.
    apply (proj1 (filter_In _ _ _)) in Hc as [_ Hc].
    by apply matchesInput_contains.
  - etrans; [apply sublist_take | apply filter_sublist].
  - apply firstMatches_take. intros c. apply matchesInput_contains.
Qed.

(** C7, as the code has it. The empty input closes the panel whatever the
    Catalog holds. Any other input, white space included, is matched as it
    is: the panel offers the first 5 entities of the Catalog whose common
    name contains it, case ignored, and is hidden exactly when no name
    does. *)
Theorem empty_input_closes_panel (st : State) :
  panelClosed (exec (showSuggestions []) st) /\
  forall input, input <> [] ->
    let catalog := st.(globals).(allCountries) in
    let st' := exec (showSuggestions input) st in
    firstMatches 5 (containsIgnoringCase input) catalog (offered st') /\
    (st'.(view).(suggestionsShown) = false <->
     Forall (fun c => ~ containsIgnoringCase input c) catalog).
Proof.
  split; [done |].
  intros input Hin. cbv zeta. rewrite offered_run, showSuggestions_run. cbv zeta.
  apply isEmpty_false in Hin. rewrite Hin, suggest_take. simpl.
  split; [apply firstMatches_take; intros c; apply matchesInput_contains |].
  rewrite <- (filter_none _ (matchesInput input)) by (intros c; apply matchesInput_contains).
  destruct (List.filter (matchesInput input) (allCountries (globals st))); by simpl.
Qed.

End Autocomplete.

Section AutocompleteExamples.

#[local] Existing Instance AsciiHost.host.

(** C7, as stated, fails for an input of one space: with South Africa in
    the Catalog, the panel opens and offers it. *)
Lemma blank_input_opens_panel :
  let st := onGlobals (set_allCountries [countryNamed "South Africa"]) initial in
  blank (js " ") /\
  offered (exec (showSuggestions (js " ")) st) = [countryNamed "South Africa"] /\
  ~ panelClosed (exec (showSuggestions (js " ")) st).
Proof.
  cbv zeta. split; [by repeat constructor |]. split; [by vm_compute |].
  intros [Hitems _]. vm_compute in Hitems. discriminate Hitems.
Qed.

(** The scenario of the specification: Chad, Chile, China. *)
Example suggest_ch :
  let catalog := map countryNamed ["Chad"; "Chile"; "China"]%string in
  suggest (js "ch") catalog = catalog /\
  suggest (js "chi") catalog = map countryNamed ["Chile"; "China"]%string /\
  panelClosed (exec (showSuggestions (js "")) (onGlobals (set_allCountries catalog) initial)).
Proof. by vm_compute. Qed.

End AutocompleteExamples.

(** ** Feedback *)

Section Feedback.

Context {host : Host}.

(** C8. With no rating selected, [submitFeedback] raises the missing-rating
    notice; with a rating but a comment that is blank, the missing-comment
    notice. Either way it stops there: the draft is as it was and no
    request is sent. *)
Theorem submitFeedback_validates (st : State) :
  st.(globals).(selectedRating) = 0 \/ trim st.(form).(feedbackText) = [] ->
  let message :=
    if st.(globals).(selectedRating) =? 0
    then js "Please select a star rating."
    else js "Please enter your feedback or query." in
  abortedWith message st (exec submitFeedback st).
Proof.
  intros Hst. cbv zeta. unfold submitFeedback. rewrite exec_get.
  destruct (Z.eqb_spec (selectedRating (globals st)) 0) as [Hr|Hr]; [done |].
  destruct Hst as [Hst|Hst]; [done |]. rewrite Hst. done.
Qed.

Lemma submitFeedback_run (st : State) :
  st.(globals).(selectedRating) <> 0 ->
  trim st.(form).(feedbackText) <> [] ->
  let rating := st.(globals).(selectedRating) in
  let feedback := trim st.(form).(feedbackText) in
  exec submitFeedback st =
  onEnv (fun e =>
      set_timers (e.(timers) ++ [{| due := e.(now) + 2000; callback := ResetFeedback |}])
        (set_console (e.(console) ++ [LogRating rating; LogFeedback feedback])
           (set_requests (e.(requests) ++ [SaveFeedback rating feedback]) e)))
    (onForm (set_successHidden false) st).
Proof.
  intros Hr Hc. cbv zeta. unfold submitFeedback. rewrite exec_get.
  destruct (Z.eqb_spec (selectedRating (globals st)) 0) as [|_]; [done |].
  apply isEmpty_false in Hc. rewrite Hc.
  destruct st as [g i w f []]. unfold exec. simpl.
  unfold onEnv, onForm, set_timers, set_console, set_requests. simpl.
  by rewrite <- app_assoc.
Qed.

Lemma settle_feedback_unnoticed rating comment o st :
  unnoticed st (exec (settle (SaveFeedback rating comment) o) st).
Proof. by destruct o. Qed.

Lemma runCallback_resets (st : State) :
  feedbackReset (exec (runCallback ResetFeedback) st).
Proof.
  repeat split. simpl. induction (stars (form st)); by constructor.
Qed.

Lemma feedbackReset_ext (st st' : State) :
  st'.(globals) = st.(globals) -> st'.(form) = st.(form) ->
  feedbackReset st -> feedbackReset st'.
Proof. unfold feedbackReset. by intros -> ->. Qed.

(** When the clock reaches the time of the timer set last, that timer's
    callback is the last to run. *)
Lemma advance_to_last_timer (delay : Z) (cb : Callback) (ts : list Timer) (st : State) :
  st.(env).(timers) = ts ++ [{| due := st.(env).(now) + delay; callback := cb |}] ->
  exists st0,
    advance delay st =
    onEnv (set_now (st.(env).(now) + delay)) (exec (runCallback cb) st0).
Proof.
  intros Hts. unfold advance. rewrite Hts.
  set (t := now (env st) + delay).
  rewrite !List.filter_app. cbn [List.filter due].
  rewrite Z.leb_refl. cbn [negb].
  rewrite stableSort_snoc.
  - rewrite foldl_app. simpl. eauto.
  - apply Forall_forall. intros x Hx.
    apply (proj1 (filter_In _ _ _)) in Hx as [_ Hx].
    unfold before. simpl. lia.
Qed.

(** A timer that is not yet due stays in the queue. *)
Lemma advance_keeps_later_timer (delay : Z) (x : Timer) (st : State) :
  In x st.(env).(timers) -> st.(env).(now) + delay < x.(due) ->
  In x (advance delay st).(env).(timers).
Proof.
  intros Hx Hlater. unfold advance. simpl.
  set (t := now (env st) + delay) in *.
  set (waiting := List.filter (fun x => negb (due x <=? t)) (timers (env st))).
  assert (In x waiting) as Hw.
  { apply filter_In. split; [done |]. apply negb_true_iff, Z.leb_gt. lia. }
  clearbody waiting.
  set (st1 := onEnv (set_timers waiting) st).
  assert (timers (env st1) = waiting) as Hst1 by done.
  clearbody st1. revert st1 Hst1.
  induction (stableSort _ _) as [|y ready IH]; intros st1 Hst1; simpl.
  - by rewrite Hst1.
  - apply IH. rewrite <- Hst1. by destruct (callback y).
Qed.

(** C9. A submission that passes validation shows the acknowledgement,
    sends the feedback and sets one timer of 2000ms. The outcome of the
    request changes nothing that the user sees. Until 2000ms have passed
    the timer is waiting; when they have, the form is reset: rating 0,
    comment empty, rating text empty, no star active, acknowledgement
    hidden. The outcome may arrive before or after. *)
Theorem submitFeedback_acknowledges_then_resets (st : State) :
  1 <= st.(globals).(selectedRating) <= 5 ->
  trim st.(form).(feedbackText) <> [] ->
  let request := SaveFeedback st.(globals).(selectedRating) (trim st.(form).(feedbackText)) in
  let timer := {| due := st.(env).(now) + 2000; callback := ResetFeedback |} in
  let st1 := exec submitFeedback st in
  st1.(form).(successHidden) = false /\
  st1.(env).(requests) = st.(env).(requests) ++ [request] /\
  st1.(env).(timers) = st.(env).(timers) ++ [timer] /\
  (forall o, unnoticed st1 (exec (settle request o) st1)) /\
  (forall delay, 0 <= delay < 2000 -> In timer (advance delay st1).(env).(timers)) /\
  feedbackReset (advance 2000 st1) /\
  (forall o, feedbackReset (advance 2000 (exec (settle request o) st1))) /\
  (forall o, feedbackReset (exec (settle request o) (advance 2000 st1))).
Proof.
  intros Hr Hc. cbv zeta.
  rewrite submitFeedback_run by (done || lia).
  set (st1 := onEnv _ (onForm _ st)).
  assert (timers (env st1) =
          timers (env st) ++ [{| due := now (env st1) + 2000; callback := ResetFeedback |}])
    as Hts by done.
  assert (feedbackReset (advance 2000 st1)) as Hreset.
  { destruct (advance_to_last_timer 2000 ResetFeedback _ st1 Hts) as [st0 ->].
    eapply feedbackReset_ext; [| | apply (runCallback_resets st0)]; done. }
  do 3 (split; [done |]).
  split; [intros o; apply settle_feedback_unnoticed |].
  split.
  { intros delay Hd. apply advance_keeps_later_timer.
    - rewrite Hts. apply in_or_app. right. by left.
    - simpl. lia. }
  split; [exact Hreset |].
  split; intros o.
  - destruct (settle_feedback_unnoticed (selectedRating (globals st))
                (trim (feedbackText (form st))) o st1) as (Hg & Hf & _ & _ & Ht & Hn).
    set (st2 := exec (settle _ o) st1) in *.
    assert (timers (env st2) =
            timers (env st) ++ [{| due := now (env st2) + 2000; callback := ResetFeedback |}])
      as Hts2 by (by rewrite Ht, Hn).
    destruct (advance_to_last_timer 2000 ResetFeedback _ st2 Hts2) as [st0 ->].
    eapply feedbackReset_ext; [| | apply (runCallback_resets st0)]; done.
  - destruct (settle_feedback_unnoticed (selectedRating (globals st))
                (trim (feedbackText (form st))) o (advance 2000 st1)) as (Hg & Hf & _).
    eapply feedbackReset_ext; [exact Hg | exact Hf | exact Hreset].
Qed.

End Feedback.

(** ** Every reachable state *)

Section Reachable.

Context {host : Host}.

Lemma cursorInRange_ext (st st' : State) :
  st'.(globals).(currentPage) = st.(globals).(currentPage) ->
  st'.(globals).(paginatedCountries) = st.(globals).(paginatedCountries) ->
  cursorInRange st -> cursorInRange st'.
Proof. unfold cursorInRange, totalPages. by intros -> ->. Qed.

Lemma thenCatch_cursorInRange onData onError o st :
  (forall data s, cursorInRange s -> cursorInRange (exec (onData data) s)) ->
  (forall err s, cursorInRange s -> cursorInRange (exec (onError err) s)) ->
  cursorInRange st -> cursorInRange (exec (thenCatch onData onError o) st).
Proof.
  intros Hdata Herror Hst. destruct o as [|data]; simpl; [by apply Herror |].
  rewrite exec_tryCatch. destruct (completion (onData data) st); auto.
Qed.

Lemma settle_cursorInRange r o st :
  cursorInRange st -> cursorInRange (exec (settle r o) st).
Proof.
  destruct r; simpl; apply thenCatch_cursorInRange; try done.
  - intros [l|] s Hs; exact Hs.
  - intros data s Hs. apply (applyPagination_cursorInRange (ofJson data)), Hs.
  - intros data s Hs. apply (applyPagination_cursorInRange (VArray [first data])), Hs.
  - intros data s Hs. apply (applyPagination_cursorInRange (ofJson data)), Hs.
  - intros data s Hs. apply (applyPagination_cursorInRange (ofJson data)), Hs.
Qed.

Lemma advance_cursor delay st :
  (advance delay st).(globals).(currentPage) = st.(globals).(currentPage) /\
  (advance delay st).(globals).(paginatedCountries) = st.(globals).(paginatedCountries).
Proof.
  unfold advance. simpl.
  set (st1 := onEnv _ st).
  change (globals st) with (globals st1). clearbody st1.
  revert st1. induction (stableSort _ _) as [|x ready IH]; intros st1; [done |].
  simpl. destruct (IH (exec (runCallback (callback x))
                        (onEnv (set_now (now (env st1) `max` due x)) st1))) as [-> ->].
  by destruct (callback x).
Qed.

Lemma handle_cursorInRange e st :
  cursorInRange st -> cursorInRange (handle e st).
Proof.
  intros Hst. destruct e; simpl.
  - exact Hst.
  - exact Hst.
  - exact Hst.
  - eapply cursorInRange_ext; [| | exact Hst]; by rewrite searchCountries_run.
  - exact Hst.
  - eapply cursorInRange_ext; [| | exact Hst]; by rewrite showSuggestions_run.
  - apply (applyPagination_cursorInRange (VArray [Some c])), Hst.
  - exact Hst.
  - by apply prevPage_cursorInRange.
  - by apply nextPage_cursorInRange.
  - exact Hst.
  - unfold submitFeedback. rewrite exec_get.
    destruct (selectedRating (globals st) =? 0); [exact Hst |].
    destruct (isEmpty (trim (feedbackText (form st)))); exact Hst.
  - by apply settle_cursorInRange.
  - destruct (advance_cursor delay st). by eapply cursorInRange_ext.
Qed.

(** X24. The cursor is in range in every state the page can reach. *)
Theorem cursorInRange_reachable (events : list Event) :
  cursorInRange (run events initial).
Proof.
  unfold run. assert (cursorInRange initial) as Hinit by (by vm_compute).
  revert Hinit. generalize initial.
  induction events as [|e events IH]; intros st Hst; [done |].
  simpl. apply IH. by apply handle_cursorInRange.
Qed.

End Reachable.

(** ** The theorems at work on concrete states *)

Section Instances.

#[local] Existing Instance AsciiHost.host.

Lemma applyPagination_sorts_and_rewinds_witness :
  ConsistentHost AsciiHost.host /\
  tenShown.(globals).(paginatedCountries) = map Some tenSorted /\
  exists sorted,
    tenShown.(globals).(paginatedCountries) = map Some sorted /\
    sortedByName tenCountries sorted /\
    tenShown.(globals).(currentPage) = 1.
Proof.
  split; [exact host_consistent |].
  split; [vm_compute; reflexivity |].
  exact (applyPagination_sorts_and_rewinds host_consistent tenCountries initial).
Defined.

Lemma cursorInRange_invariant_witness :
  cursorInRange tenShown /\
  cursorInRange (exec nextPage tenShown) /\
  cursorInRange (exec prevPage tenShown).
Proof.
  assert (cursorInRange tenShown) as Hin by (by vm_compute).
  split; [exact Hin |].
  destruct cursorInRange_invariant as [_ Hkeep].
  destruct (Hkeep tenShown Hin) as (_ & Hprev & Hnext).
  split; [exact Hnext | exact Hprev].
Defined.

Lemma suggestions_are_first_matches_witness :
  let catalog := map countryNamed ["Chad"; "Chile"; "China"]%string in
  let st := onGlobals (set_allCountries catalog) initial in
  let shown := offered (exec (showSuggestions (js "chi")) st) in
  js "chi" <> [] /\
  shown = map countryNamed ["Chile"; "China"]%string /\
  (length shown <= 5)%nat /\
  Forall (containsIgnoringCase (js "chi")) shown /\
  sublist shown catalog /\
  firstMatches 5 (containsIgnoringCase (js "chi")) catalog shown.
Proof.
  cbv zeta.
  assert (js "chi" <> []) as Hin by (vm_compute; discriminate).
  split; [exact Hin |]. split; [vm_compute; reflexivity |].
  exact (suggestions_are_first_matches (js "chi")
           (onGlobals (set_allCountries (map countryNamed ["Chad"; "Chile"; "China"]%string))
              initial) Hin).
Defined.

Lemma empty_input_closes_panel_witness :
  let catalog := [countryNamed "Chad"; countryNamed "South Africa"] in
  let st := onGlobals (set_allCountries catalog) initial in
  let st' := exec (showSuggestions (js " ")) st in
  js " " <> [] /\
  offered st' = [countryNamed "South Africa"] /\
  firstMatches 5 (containsIgnoringCase (js " ")) catalog (offered st') /\
  (st'.(view).(suggestionsShown) = false <->
   Forall (fun c => ~ containsIgnoringCase (js " ") c) catalog).
Proof.
  cbv zeta.
  assert (js " " <> []) as Hin by (vm_compute; discriminate).
  split; [exact Hin |]. split; [vm_compute; reflexivity |].
  exact (proj2 (empty_input_closes_panel
                  (onGlobals (set_allCountries
                     [countryNamed "Chad"; countryNamed "South Africa"]) initial))
           (js " ") Hin).
Defined.

Lemma submitFeedback_validates_witness :
  abortedWith (js "Please select a star rating.")
    initial (exec submitFeedback initial) /\
  abortedWith (js "Please enter your feedback or query.")
    (ratedThree "  ") (exec submitFeedback (ratedThree "  ")).
Proof.
  split.
  - apply (submitFeedback_validates initial). left. reflexivity.
  - apply (submitFeedback_validates (ratedThree "  ")). right. reflexivity.
Defined.

Lemma submitFeedback_acknowledges_then_resets_witness :
  let st := ratedThree "great" in
  let request := SaveFeedback 3 (js "great") in
  let timer := {| due := 2000; callback := ResetFeedback |} in
  let st1 := exec submitFeedback st in
  st1.(form).(successHidden) = false /\
  st1.(env).(requests) = [request] /\
  st1.(env).(timers) = [timer] /\
  (forall o, unnoticed st1 (exec (settle request o) st1)) /\
  (forall delay, 0 <= delay < 2000 -> In timer (advance delay st1).(env).(timers)) /\
  feedbackReset (advance 2000 st1) /\
  (forall o, feedbackReset (advance 2000 (exec (settle request o) st1))) /\
  (forall o, feedbackReset (exec (settle request o) (advance 2000 st1))).
Proof.
  apply (submitFeedback_acknowledges_then_resets (ratedThree "great")).
  - vm_compute. split; discriminate.
  - vm_compute. discriminate.
Defined.

(** The scenarios of the specification. *)

Example two_pages :
  totalPages tenShown = 2 /\
  map (fun b => match b with CardBlock c => c.(cardName) | NoCountriesFound => [] end)
    tenShown.(view).(countryList) =
    map js ["A"; "B"; "C"; "D"; "E"; "F"; "G"; "H"; "I"]%string /\
  let st := exec nextPage tenShown in
  st.(globals).(currentPage) = 2 /\
  map (fun b => match b with CardBlock c => c.(cardName) | NoCountriesFound => [] end)
    st.(view).(countryList) = [js "J"] /\
  st.(view).(pagination) =
    Some {| pageShown := 2; totalShown := 2; prevDisabled := false; nextDisabled := true |} /\
  st.(view).(countryCount) = Found 10 /\
  (exec nextPage st).(globals).(currentPage) = 2 /\
  (exec prevPage tenShown).(globals).(currentPage) = 1.
Proof. by vm_compute. Qed.

Example rate_and_submit :
  let st := exec submitFeedback (ratedThree "great") in
  st.(form).(successHidden) = false /\
  st.(form).(ratingText) = YouRated 3 true /\
  st.(form).(stars) = [true; true; true; false; false] /\
  (advance 1999 st).(globals).(selectedRating) = 3 /\
  (advance 2000 st).(globals).(selectedRating) = 0 /\
  (advance 2000 st).(form) =
    {| feedbackText := []; ratingText := NoRatingText; stars := replicate 5 false;
       successHidden := true; modalShown := false |}.
Proof. by vm_compute. Qed.

End Instances.

(** ** What the list view shows *)

Section ListView.

Lemma slice_forward {A} (l : list A) (start stop : Z) :
  0 <= start <= stop ->
  slice l start stop = take (Z.to_nat (stop - start)) (drop (Z.to_nat start) l).
Proof.
  intros Hr. unfold slice, relativeIndex.
  destruct (Z.ltb_spec start 0) as [|_]; [lia |].
  destruct (Z.ltb_spec stop 0) as [|_]; [lia |].
  destruct (Z_le_gt_dec start (Z.of_nat (length l))) as [Hs|Hs].
  - rewrite (Z.min_l start) by done.
    destruct (Z_le_gt_dec stop (Z.of_nat (length l))) as [He|He].
    + by rewrite Z.min_l.
    + rewrite Z.min_r by lia.
      rewrite !take_ge; [done | |]; rewrite length_drop; lia.
  - rewrite !Z.min_r by lia. rewrite Nat2Z.id.
    rewrite !drop_ge by lia. by rewrite !take_nil.
Qed.

Lemma definedPrefix_defined (entities : list Country) :
  definedPrefix (map Some entities) = entities.
Proof. induction entities as [|c l IH]; [done |]. simpl. by rewrite IH. Qed.

Lemma forEach_appendCard (l : list Element) (st : State) :
  forEach appendCard l st =
  (if forallb isDefined l then Normal tt else Throw TypeError,
   onView (fun w => set_countryList (w.(countryList) ++ cardsOf (definedPrefix l)) w) st).
Proof.
  revert st. induction l as [|[c|] l IH]; intros [g i [] f e].
  - simpl. unfold onView, set_countryList. simpl. by rewrite app_nil_r.
  - simpl forEach. rewrite run_bind. unfold appendCard at 1, modify at 1.
    rewrite IH. unfold onView, set_countryList. simpl. by rewrite <- app_assoc.
  - simpl forEach. rewrite run_bind. unfold appendCard at 1, throw.
    unfold onView, set_countryList. simpl. by rewrite app_nil_r.
Qed.

Lemma forallb_defined (entities : list Country) :
  forallb isDefined (map Some entities) = true.
Proof. by induction entities. Qed.

(** The entities of a page are those between its two bounds. *)
Lemma slice_page (entities : list Country) (page : Z) :
  1 <= page ->
  slice (map Some entities) ((page - 1) * itemsPerPage)
    ((page - 1) * itemsPerPage + itemsPerPage) =
  map Some (pageOf entities page).
Proof.
  intros Hp. rewrite slice_forward by (unfold itemsPerPage; lia).
  unfold pageOf. rewrite skipn_map, firstn_map.
  do 2 f_equal. lia.
Qed.

Lemma displayCountries_run (countries : list Element) (st : State) :
  displayCountries countries st =
  (if forallb isDefined countries then Normal tt else Throw TypeError,
   onView (fun w =>
     set_countryList (cardsOf (definedPrefix countries))
       (set_countryCount (Found (Z.of_nat (length st.(globals).(paginatedCountries))))
          (set_placeholderShown false w))) st).
Proof.
  unfold displayCountries, updateCountryCount, mbind, M_bind, modify, get.
  cbv beta iota. rewrite forEach_appendCard. by destruct st as [g i [] f e].
Qed.

Lemma updatePaginationControls_run (st : State) :
  st.(globals).(paginatedCountries) <> [] ->
  let page := st.(globals).(currentPage) in
  updatePaginationControls st =
  (Normal tt,
   onView (set_pagination (Some
     {| pageShown := page; totalShown := totalPages st;
        prevDisabled := page =? 1; nextDisabled := page =? totalPages st |})) st).
Proof.
  intros Hne. cbv zeta. unfold updatePaginationControls. rewrite run_bind.
  unfold get at 1. cbv beta iota.
  by destruct (paginatedCountries (globals st)).
Qed.

Lemma renderPage_defined (entities : list Country) (st : State) :
  st.(globals).(paginatedCountries) = map Some entities ->
  entities <> [] ->
  1 <= st.(globals).(currentPage) ->
  let page := st.(globals).(currentPage) in
  renderPage st =
  (Normal tt,
   onView (fun w =>
     set_pagination (Some {| pageShown := page; totalShown := totalPages st;
                             prevDisabled := page =? 1;
                             nextDisabled := page =? totalPages st |})
       (set_countryCount (Found (Z.of_nat (length entities)))
          (set_countryList (cardsOf (pageOf entities page))
             (set_placeholderShown false w)))) st).
Proof.
  intros Hset Hne Hpage. cbv zeta. unfold renderPage. rewrite run_bind.
  unfold get at 1. cbv beta iota. rewrite Hset, length_map.
  destruct entities as [|c entities]; [done |].
  change (length (c :: entities) =? 0)%nat with false. cbv iota.
  rewrite run_bind, displayCountries_run, slice_page by done.
  rewrite forallb_defined, definedPrefix_defined, Hset, length_map.
  rewrite updatePaginationControls_run by (simpl; by rewrite Hset).
  by destruct st as [g i [] f e].
Qed.

Lemma pageOf_length (entities : list Country) (page : Z) :
  1 <= page ->
  Z.of_nat (length (pageOf entities page)) =
  Z.max 0 (Z.min itemsPerPage (Z.of_nat (length entities) - (page - 1) * itemsPerPage)).
Proof.
  intros Hp. unfold pageOf. rewrite length_take, length_drop. unfold itemsPerPage. lia.
Qed.

(** X1. With a Result Set of entities that is not empty and the cursor in
    range, [renderPage] completes and shows the cards of the entities of
    the current page, between 1 and 9 of them; the counter gives the size
    of the whole Result Set, and the controls give the page, the number of
    pages, Prev disabled on page 1 only and Next on the last page only. *)
Theorem renderPage_shows_current_page (entities : list Country) (st : State) :
  st.(globals).(paginatedCountries) = map Some entities ->
  entities <> [] ->
  cursorInRange st ->
  let page := st.(globals).(currentPage) in
  let st' := exec renderPage st in
  completion renderPage st = Normal tt /\
  st'.(view).(countryList) = cardsOf (pageOf entities page) /\
  (1 <= length (pageOf entities page) <= 9)%nat /\
  st'.(view).(countryCount) = Found (Z.of_nat (length entities)) /\
  st'.(view).(pagination) =
    Some {| pageShown := page; totalShown := totalPages st;
            prevDisabled := page =? 1; nextDisabled := page =? totalPages st |} /\
  st'.(view).(placeholderShown) = false.
Proof.
  intros Hset Hne [Hlo Hhi]. cbv zeta. unfold exec, completion.
  rewrite (renderPage_defined entities) by done. simpl.
  repeat split; try done.
  - pose proof (pageOf_length entities _ Hlo) as Hlen.
    unfold totalPages in Hhi. rewrite Hset, length_map in Hhi.
    pose proof (ceilDiv_spec (Z.of_nat (length entities)) itemsPerPage) as Hc.
    destruct entities; [done |]. simpl length in *. unfold itemsPerPage in *. lia.
  - pose proof (pageOf_length entities _ Hlo) as Hlen. unfold itemsPerPage in *. lia.
Qed.

Lemma chunks_take {A} (size n : nat) (l : list A) :
  concat (map (fun k => take size (drop (k * size) l)) (seq 0 n)) = take (n * size) l.
Proof.
  induction n as [|n IH]; [done |].
  rewrite seq_S, map_app, concat_app, IH. simpl.
  rewrite app_nil_r, take_take_drop. f_equal. lia.
Qed.

Lemma cardsOf_concat {K} (pages : K -> list Country) (ks : list K) :
  concat (map (fun k => cardsOf (pages k)) ks) = cardsOf (concat (map pages ks)).
Proof.
  induction ks as [|k ks IH]; [done |].
  simpl. rewrite IH. unfold cardsOf. by rewrite map_app.
Qed.

Lemma turnedTo_defined (entities : list Country) (page : Z) (st : State) :
  st.(globals).(paginatedCountries) = map Some entities ->
  entities <> [] ->
  1 <= page ->
  (turnedTo page st).(view).(countryList) = cardsOf (pageOf entities page).
Proof.
  intros Hset Hne Hpage. unfold turnedTo, exec.
  by rewrite (renderPage_defined entities).
Qed.

(** X2. The pages of a Result Set of entities, shown one after the other
    from the first to the last, show every entity exactly once, in the
    order of the Result Set. *)
Theorem pages_show_every_entity_once (entities : list Country) (st : State) :
  st.(globals).(paginatedCountries) = map Some entities ->
  entities <> [] ->
  concat (map (fun page => (turnedTo page st).(view).(countryList)) (pageNumbers st)) =
  cardsOf entities.
Proof.
  intros Hset Hne. unfold pageNumbers. rewrite map_map.
  rewrite (map_ext _ (fun k => cardsOf (take 9 (drop (k * 9) entities)))).
  - rewrite cardsOf_concat, chunks_take, take_ge; [done |].
    unfold totalPages. rewrite Hset, length_map.
    pose proof (ceilDiv_spec (Z.of_nat (length entities)) itemsPerPage).
    unfold itemsPerPage in *. lia.
  - intros k. rewrite (turnedTo_defined entities) by (done || lia).
    unfold pageOf, itemsPerPage. do 3 f_equal. lia.
Qed.

(** The general form of [renderPage]: the no-results view for the empty
    Result Set; otherwise the cards of the page up to its first
    [undefined], where it throws before the controls are written. *)
Lemma renderPage_run (st : State) :
  let set := st.(globals).(paginatedCountries) in
  let page := st.(globals).(currentPage) in
  let sliced := slice set ((page - 1) * itemsPerPage) ((page - 1) * itemsPerPage + itemsPerPage) in
  renderPage st =
  if (length set =? 0)%nat
  then (Normal tt,
        onView (fun w => set_countryCount (Found 0)
                  (set_pagination None (set_countryList [NoCountriesFound] w))) st)
  else if forallb isDefined sliced
  then (Normal tt,
        onView (fun w =>
          set_pagination (Some {| pageShown := page; totalShown := totalPages st;
                                  prevDisabled := page =? 1;
                                  nextDisabled := page =? totalPages st |})
            (set_countryCount (Found (Z.of_nat (length set)))
               (set_countryList (cardsOf (definedPrefix sliced))
                  (set_placeholderShown false w)))) st)
  else (Throw TypeError,
        onView (fun w =>
          set_countryCount (Found (Z.of_nat (length set)))
            (set_countryList (cardsOf (definedPrefix sliced))
               (set_placeholderShown false w))) st).
Proof.
  cbv zeta. unfold renderPage. rewrite run_bind. unfold get at 1. cbv beta iota.
  destruct (length (paginatedCountries (globals st)) =? 0)%nat eqn:Hlen; [done |].
  rewrite run_bind, displayCountries_run.
  destruct (forallb isDefined _); [| done].
  rewrite updatePaginationControls_run.
  - by destruct st as [g i [] f e].
  - simpl. intros Hnil. by rewrite Hnil in Hlen.
Qed.

(** X3. Whatever the state, after [renderPage] the counter gives the size
    of the whole Result Set, not of the page: also when the Result Set is
    empty, and also when rendering throws. *)
Theorem renderPage_counts_whole_result_set (st : State) :
  (exec renderPage st).(view).(countryCount) =
  Found (Z.of_nat (length st.(globals).(paginatedCountries))).
Proof.
  unfold exec. rewrite renderPage_run. cbv zeta.
  destruct (length (paginatedCountries (globals st)) =? 0)%nat eqn:Hlen.
  - apply Nat.eqb_eq in Hlen. by rewrite Hlen.
  - by destruct (forallb isDefined _).
Qed.

Lemma times_S (n : nat) (op : M unit) (st : State) :
  times (S n) op st = exec op (times n op st).
Proof. done. Qed.

(** X4. From a cursor in range, Next pressed [n] times stops on the last
    page and Prev pressed [n] times stops on page 1; neither changes the
    Result Set. *)
Theorem repeated_navigation (n : nat) (st : State) :
  cursorInRange st ->
  let page := st.(globals).(currentPage) in
  (times n nextPage st).(globals).(currentPage) =
    Z.min (page + Z.of_nat n) (Z.max 1 (totalPages st)) /\
  (times n prevPage st).(globals).(currentPage) = Z.max 1 (page - Z.of_nat n) /\
  (times n nextPage st).(globals).(paginatedCountries) = st.(globals).(paginatedCountries) /\
  (times n prevPage st).(globals).(paginatedCountries) = st.(globals).(paginatedCountries).
Proof.
  intros [Hlo Hhi]. cbv zeta.
  induction n as [|n (IHnext & IHprev & IHsetn & IHsetp)].
  { unfold times. simpl. repeat split; lia. }
  rewrite !times_S, nextPage_globals, prevPage_globals.
  rewrite (totalPages_ext st (times n nextPage st)) by done.
  rewrite IHnext, IHprev.
  destruct (Z.ltb_spec (Z.min (currentPage (globals st) + Z.of_nat n) (Z.max 1 (totalPages st)))
              (totalPages st));
    destruct (Z.gtb_spec (Z.max 1 (currentPage (globals st) - Z.of_nat n)) 1);
    simpl; rewrite ?IHnext, ?IHprev; repeat split; try done; lia.
Qed.

(** X5. On a Result Set of entities, Next followed by Prev shows again
    the page it started from: the state is the one [renderPage] gives. *)
Theorem nextPage_then_prevPage (entities : list Country) (st : State) :
  st.(globals).(paginatedCountries) = map Some entities ->
  1 <= st.(globals).(currentPage) < totalPages st ->
  exec prevPage (exec nextPage st) = exec renderPage st.
Proof.
  intros Hset [Hlo Hhi].
  assert (entities <> []) as Hne.
  { intros ->. unfold totalPages in Hhi. rewrite Hset in Hhi.
    change (ceilDiv (Z.of_nat (length (map Some (@nil Country)))) itemsPerPage)
      with 0 in Hhi. lia. }
  unfold nextPage. rewrite exec_get.
  destruct (Z.ltb_spec (currentPage (globals st)) (totalPages st)) as [_|]; [| lia].
  rewrite exec_modify. unfold exec at 2. rewrite (renderPage_defined entities); try done.
  2: { simpl. lia. }
  unfold prevPage. rewrite exec_get. simpl.
  destruct (Z.gtb_spec (currentPage (globals st) + 1) 1) as [_|]; [| lia].
  rewrite exec_modify. unfold exec. rewrite !(renderPage_defined entities); try done.
  2: { simpl. lia. }
  simpl. destruct st as [[] i [] f e]. unfold onView, onGlobals, totalPages. simpl.
  replace (currentPage0 + 1 - 1) with currentPage0 by lia. done.
Qed.

End ListView.

(** ** Answers to the lookups *)

Section Answers.

Context {host : Host}.

Lemma applyPagination_entities (entities : list Country) (st : State) :
  let sorted := stableSort byCommonName entities in
  let st1 := onGlobals (fun g => set_currentPage 1
                          (set_paginatedCountries (map Some sorted) g)) st in
  applyPagination (VArray (map Some entities)) st =
  (Normal tt,
   if (length sorted =? 0)%nat
   then onView (fun w => set_countryCount (Found 0)
                  (set_pagination None (set_countryList [NoCountriesFound] w))) st1
   else onView (fun w =>
          set_pagination (Some {| pageShown := 1; totalShown := totalPages st1;
                                  prevDisabled := true;
                                  nextDisabled := 1 =? totalPages st1 |})
            (set_countryCount (Found (Z.of_nat (length sorted)))
               (set_countryList (cardsOf (pageOf sorted 1))
                  (set_placeholderShown false w)))) st1).
Proof.
  cbv zeta. unfold applyPagination. rewrite arraySort_defined.
  unfold mbind, M_bind, modify. cbv beta iota.
  destruct (stableSort byCommonName entities) as [|c rest].
  - rewrite renderPage_run. by destruct st as [[] i [] f e].
  - by rewrite (renderPage_defined (c :: rest)).
Qed.

Lemma applyPagination_answeredWith (entities : list Country) (st st0 : State) :
  st.(view).(loaderHidden) = true ->
  st.(env).(alerts) = st0.(env).(alerts) ->
  st.(globals).(allCountries) = st0.(globals).(allCountries) ->
  answeredWith (stableSort byCommonName entities) st0
    (exec (applyPagination (VArray (map Some entities))) st).
Proof.
  intros Hloader Halerts Hall. unfold exec. rewrite applyPagination_entities. cbv zeta.
  unfold answeredWith.
  destruct (stableSort byCommonName entities) as [|c sorted]; simpl; by repeat split.
Qed.

Lemma list_lookups_run (key : jsstring) (answer : list Country) (st : State) :
  let sorted := stableSort byCommonName answer in
  let o := Resolved (JArray answer) in
  (answeredWith sorted st (exec (settle (ByName key) o) st) /\
   completion (settle (ByName key) o) st = Normal tt) /\
  (answeredWith sorted st (exec (settle (ByCapital key) o) st) /\
   completion (settle (ByCapital key) o) st = Normal tt) /\
  (answeredWith sorted st (exec (settle (ByRegion key) o) st) /\
   completion (settle (ByRegion key) o) st = Normal tt).
Proof.
  cbv zeta.
  assert (forall handler,
    answeredWith (stableSort byCommonName answer) st
      (exec (tryCatch (hideLoader;; applyPagination (ofJson (JArray answer))) handler) st) /\
    completion (tryCatch (hideLoader;; applyPagination (ofJson (JArray answer))) handler) st =
      Normal tt) as Hrun.
  { intros handler. unfold exec, completion, tryCatch, hideLoader, mbind, M_bind, modify.
    cbv beta iota. simpl ofJson.
    pose proof (applyPagination_answeredWith answer
                  (onView (set_loaderHidden true) st) st) as Hans.
    unfold exec in Hans. rewrite applyPagination_entities in *.
    cbv beta iota zeta in *. split; [by apply Hans | reflexivity]. }
  repeat split; apply Hrun.
Qed.

(** X6. A name, capital or region lookup answered with a list of records
    completes without exception and replaces the Result Set by the records
    sorted by common name; the cursor is on page 1, the first page is shown
    (the no-results view for the empty list), the loader is hidden, no
    notice is raised and the Catalog is as before. *)
Theorem list_lookups_show_sorted_answer
    (consistent : ConsistentHost host) (key : jsstring) (answer : list Country)
    (st : State) :
  let o := Resolved (JArray answer) in
  exists sorted,
    sortedByName answer sorted /\
    (answeredWith sorted st (exec (settle (ByName key) o) st) /\
     completion (settle (ByName key) o) st = Normal tt) /\
    (answeredWith sorted st (exec (settle (ByCapital key) o) st) /\
     completion (settle (ByCapital key) o) st = Normal tt) /\
    (answeredWith sorted st (exec (settle (ByRegion key) o) st) /\
     completion (settle (ByRegion key) o) st = Normal tt).
Proof.
  cbv zeta. exists (stableSort byCommonName answer).
  split; [by apply stableSort_sortedByName | apply list_lookups_run].
Qed.

(** X7. A code lookup answered with a list shows its first record alone:
    one card, page 1 of 1 with Prev and Next disabled, a count of 1, no
    notice. *)
Theorem code_lookup_shows_first_record
    (key : jsstring) (c : Country) (others : list Country) (st : State) :
  let st' := exec (settle (ByCode key) (Resolved (JArray (c :: others)))) st in
  completion (settle (ByCode key) (Resolved (JArray (c :: others)))) st = Normal tt /\
  st'.(globals).(paginatedCountries) = [Some c] /\
  st'.(globals).(currentPage) = 1 /\
  st'.(view).(countryList) = cardsOf [c] /\
  st'.(view).(countryCount) = Found 1 /\
  st'.(view).(pagination) =
    Some {| pageShown := 1; totalShown := 1; prevDisabled := true; nextDisabled := true |} /\
  st'.(view).(loaderHidden) = true /\
  st'.(env).(alerts) = st.(env).(alerts).
Proof. done. Qed.

(** X8. A code lookup answered with no record (an object, or the empty
    list) stores the one-element list [[undefined]] and page 1, sets the
    count to 1 and shows no card; rendering throws, so the controls are
    those of before and the invalid-code notice is raised. *)
Theorem code_lookup_without_record_view (key : jsstring) (st : State) :
  let stored st' :=
    st'.(globals).(paginatedCountries) = [None] /\
    st'.(globals).(currentPage) = 1 /\
    st'.(view).(countryList) = [] /\
    st'.(view).(countryCount) = Found 1 /\
    st'.(view).(pagination) = st.(view).(pagination) /\
    st'.(view).(loaderHidden) = true /\
    st'.(env).(alerts) = st.(env).(alerts) ++ [js "Invalid country code!"] in
  stored (exec (settle (ByCode key) (Resolved JObject)) st) /\
  stored (exec (settle (ByCode key) (Resolved (JArray []))) st).
Proof. done. Qed.

(** X9. A capital or region lookup answered with a value that is not a
    list raises its notice and changes nothing else but the loader:
    [applyPagination] throws before it assigns. *)
Theorem capital_region_lookup_not_a_list (key : jsstring) (st : State) :
  exec (settle (ByCapital key) (Resolved JObject)) st =
    onEnv (set_alerts (st.(env).(alerts) ++ [js "No country with that capital!"]))
      (onView (set_loaderHidden true) st) /\
  exec (settle (ByRegion key) (Resolved JObject)) st =
    onEnv (set_alerts (st.(env).(alerts) ++ [js "Region not found!"]))
      (onView (set_loaderHidden true) st).
Proof. by destruct st as [g i [] f []]. Qed.

End Answers.

(** ** The Catalog, the loader and the filters *)

Section Catalog.

Context {host : Host}.

(** X10. The answer to the request for all countries becomes the Catalog,
    sorted by common name; it is not shown: the Result Set, the cursor and
    the list view stay as they were. When the request fails or the answer
    is not a list, the Catalog is kept and the error goes to the console,
    not to the user. *)
Theorem catalog_load
    (consistent : ConsistentHost host) (answer : list Country) (st : State) :
  (let st' := exec (settle LoadAll (Resolved (JArray answer))) st in
   sortedByName answer st'.(globals).(allCountries) /\
   st'.(globals).(paginatedCountries) = st.(globals).(paginatedCountries) /\
   st'.(globals).(currentPage) = st.(globals).(currentPage) /\
   st'.(view) = set_loaderHidden true st.(view) /\
   st'.(env) = st.(env)) /\
  (exec (settle LoadAll Rejected) st =
     onEnv (set_console (st.(env).(console) ++ [LogError NetworkError]))
       (onView (set_loaderHidden true) st)) /\
  (exec (settle LoadAll (Resolved JObject)) st =
     onEnv (set_console (st.(env).(console) ++ [LogError TypeError]))
       (onView (set_loaderHidden true) st)).
Proof.
  split; [| by destruct st as [g i [] f []]].
  cbv zeta. simpl. split; [by apply stableSort_sortedByName | done].
Qed.

Lemma renderPage_loader (st : State) :
  (exec renderPage st).(view).(loaderHidden) = st.(view).(loaderHidden).
Proof.
  unfold exec. rewrite renderPage_run. cbv zeta.
  destruct (length _ =? 0)%nat; [done |]. by destruct (forallb isDefined _).
Qed.

Lemma applyPagination_loader (countries : JsValue) (st : State) :
  (exec (applyPagination countries) st).(view).(loaderHidden) = st.(view).(loaderHidden).
Proof.
  destruct countries as [l|]; [| done].
  unfold applyPagination. by rewrite !exec_modify, renderPage_loader.
Qed.

Lemma thenCatch_hides_loader onData onError o st :
  (forall data s, (exec (hideLoader;; onData data) s).(view).(loaderHidden) = true) ->
  (forall err s, (exec (hideLoader;; onError err) s).(view).(loaderHidden) = true) ->
  (exec (thenCatch (fun data => hideLoader;; onData data)
                   (fun err => hideLoader;; onError err) o) st).(view).(loaderHidden) = true.
Proof.
  intros Hdata Herror. destruct o as [|data]; simpl; [apply Herror |].
  rewrite exec_tryCatch. destruct (completion _ st); [apply Hdata | apply Herror].
Qed.

(** X11. A search shows the loader, and the continuation of every lookup
    hides it, whatever the outcome and also when the continuation throws;
    the continuation of the feedback request leaves it alone. *)
Theorem loader_follows_requests (st : State) :
  (exec searchCountries st).(view).(loaderHidden) = false /\
  forall r o,
    (exec (settle r o) st).(view).(loaderHidden) =
    match r with
    | SaveFeedback _ _ => st.(view).(loaderHidden)
    | _ => true
    end.
Proof.
  split; [by rewrite searchCountries_run |].
  intros r o. destruct r; simpl settle.
  - apply (thenCatch_hides_loader
             (fun data => match data with
                          | JArray l => modify (onGlobals (set_allCountries
                                                  (stableSort byCommonName l)))
                          | JObject => throw TypeError
                          end)
             (fun err => consoleLog (LogError err))); [| done].
    by intros [l|] s.
  - apply (thenCatch_hides_loader (fun data => applyPagination (ofJson data))
             (fun _ => applyPagination (VArray []))); [| done].
    intros data s. unfold hideLoader. by rewrite exec_modify, applyPagination_loader.
  - apply (thenCatch_hides_loader (fun data => applyPagination (VArray [first data]))
             (fun _ => alert (js "Invalid country code!"))); [| done].
    intros data s. unfold hideLoader. by rewrite exec_modify, applyPagination_loader.
  - apply (thenCatch_hides_loader (fun data => applyPagination (ofJson data))
             (fun _ => alert (js "No country with that capital!"))); [| done].
    intros data s. unfold hideLoader. by rewrite exec_modify, applyPagination_loader.
  - apply (thenCatch_hides_loader (fun data => applyPagination (ofJson data))
             (fun _ => alert (js "Region not found!"))); [| done].
    intros data s. unfold hideLoader. by rewrite exec_modify, applyPagination_loader.
  - by destruct o.
Qed.

(** X12. [resetFilters] empties the four filters, the list, the controls,
    the counter and the suggestion panel and brings the placeholder back,
    but keeps the Result Set, the cursor and the Catalog in memory and
    sends nothing; the search that follows asks for all countries. *)
Theorem resetFilters_then_search (st : State) :
  let st1 := exec resetFilters st in
  st1.(inputs) = {| searchName := []; searchCode := []; searchCapital := [];
                    searchRegion := [] |} /\
  st1.(view) = {| loaderHidden := st.(view).(loaderHidden); placeholderShown := true;
                  countryList := []; pagination := None; countryCount := NoCount;
                  suggestions := []; suggestionsShown := false |} /\
  st1.(globals) = st.(globals) /\
  st1.(env) = st.(env) /\
  (exec searchCountries st1).(env).(requests) = st.(env).(requests) ++ [LoadAll].
Proof. cbv zeta. by rewrite searchCountries_run. Qed.

(** X13. Picking a suggestion puts the country's name in the name filter,
    closes the panel and shows that country alone (one card, page 1 of 1,
    a count of 1), without any request. *)
Theorem selectSuggestion_shows_country (c : Country) (st : State) :
  let st' := exec (selectSuggestion c) st in
  st'.(inputs).(searchName) = c.(name_common) /\
  panelClosed st' /\
  st'.(globals).(paginatedCountries) = [Some c] /\
  st'.(globals).(currentPage) = 1 /\
  st'.(view).(countryList) = cardsOf [c] /\
  st'.(view).(countryCount) = Found 1 /\
  st'.(view).(pagination) =
    Some {| pageShown := 1; totalShown := 1; prevDisabled := true; nextDisabled := true |} /\
  st'.(env) = st.(env).
Proof. done. Qed.

End Catalog.

(** ** The stars *)

Section Stars.

Context {host : Host}.

Lemma imap_threshold {A} (k : nat) (l : list A) :
  imap (fun index _ => Z.of_nat index <? Z.of_nat k) l =
  replicate (min k (length l)) true ++ replicate (length l - k) false.
Proof.
  revert k. induction l as [|x l IH]; intros k; [by rewrite Nat.min_0_r |].
  destruct k as [|k].
  - simpl. f_equal. clear IH. induction l as [|y l IH]; [done |].
    simpl in *. f_equal. rewrite <- IH. by apply imap_ext.
  - simpl. f_equal. rewrite <- IH. apply imap_ext. intros i y _. simpl.
    destruct (Z.ltb_spec (Z.of_nat (S i)) (Z.of_nat (S k)));
      destruct (Z.ltb_spec (Z.of_nat i) (Z.of_nat k)); (done || lia).
Qed.

(** X14. [setRating] activates the first stars up to the rating and
    deactivates the others, whatever was active before; it records the
    rating and writes the text, in the plural above 1. The comment is not
    touched. *)
Theorem setRating_marks_first_stars (rating : Z) (st : State) :
  let st' := exec (setRating rating) st in
  let count := length st.(form).(stars) in
  st'.(form).(stars) =
    replicate (min (Z.to_nat rating) count) true ++
    replicate (count - Z.to_nat rating) false /\
  st'.(globals).(selectedRating) = rating /\
  st'.(form).(ratingText) = YouRated rating (rating >? 1) /\
  st'.(form).(feedbackText) = st.(form).(feedbackText).
Proof.
  cbv zeta. simpl. repeat split.
  rewrite <- imap_threshold. apply imap_ext. intros i x _. simpl.
  destruct (Z.ltb_spec (Z.of_nat i) rating);
    destruct (Z.ltb_spec (Z.of_nat i) (Z.of_nat (Z.to_nat rating))); (done || lia).
Qed.

End Stars.

(** ** The suggestion items and the panel *)

Section Items.

Context {host : Host}.




Lemma advance_suggestions delay st :
  (advance delay st).(view).(suggestions) = st.(view).(suggestions).
Proof.
  unfold advance. simpl.
  set (st1 := onEnv _ st).
  change (view st) with (view st1). clearbody st1.
  revert st1. induction (stableSort _ _) as [|x ready IH]; intros st1; [done |].
  simpl. rewrite IH. by destruct (callback x).
Qed.

(** X16. When the name field loses focus nothing is hidden at once; a
    timer of 200ms is set, it is still waiting at any earlier time, and
    when the 200ms have passed the panel is hidden, its items kept. *)
Theorem blur_hides_panel_later (st : State) :
  let timer := {| due := st.(env).(now) + 200; callback := HideSuggestions |} in
  let st1 := exec onBlur st in
  st1.(view) = st.(view) /\
  st1.(env).(timers) = st.(env).(timers) ++ [timer] /\
  (forall delay, 0 <= delay < 200 -> In timer (advance delay st1).(env).(timers)) /\
  (advance 200 st1).(view).(suggestionsShown) = false /\
  (advance 200 st1).(view).(suggestions) = st.(view).(suggestions).
Proof.
  cbv zeta. split; [done |]. split; [done |]. split; [| split].
  - intros delay Hd. apply advance_keeps_later_timer.
    + simpl. apply in_or_app. right. by left.
    + simpl. lia.
  - destruct (advance_to_last_timer 200 HideSuggestions (timers (env st)) (exec onBlur st))
      as [st0 ->]; done.
  - by rewrite advance_suggestions.
Qed.

End Items.

(** ** What holds in every state the page reaches *)

Section Always.

Context {host : Host}.

Lemma trimStart_noLeading (s : jsstring) : noLeading (trimStart s).
Proof.
  induction s as [|c s IH]; simpl; [done |].
  by destruct (isWhiteSpace c) eqn:Hc.
Qed.

Lemma trimStart_id (s : jsstring) : noLeading s -> trimStart s = s.
Proof. destruct s as [|c s]; simpl; [done |]. by intros ->. Qed.

Lemma trimEnd_prefix (s : jsstring) : exists post, s = trimEnd s ++ post.
Proof.
  destruct (trimStart_suffix (rev s)) as (pre & _ & Hpre).
  exists (rev pre). unfold trimEnd.
  rewrite <- rev_app_distr, <- Hpre. by rewrite rev_involutive.
Qed.

Lemma trimEnd_noLeading (s : jsstring) : noLeading s -> noLeading (trimEnd s).
Proof.
  intros Hs. destruct (trimEnd_prefix s) as [post Hpost].
  destruct (trimEnd s) as [|c r]; [done |]. by rewrite Hpost in Hs.
Qed.

(** Trimming a trimmed string changes nothing. *)
Lemma trim_idempotent (s : jsstring) : trim (trim s) = trim s.
Proof.
  unfold trim at 1. rewrite trimStart_id.
  - unfold trim, trimEnd. rewrite rev_involutive.
    rewrite (trimStart_id (trimStart _)); [done | apply trimStart_noLeading].
  - apply trimEnd_noLeading, trimStart_noLeading.
Qed.

Lemma tryCatch_requests (body : M unit) (handler : JsError -> M unit) st :
  (forall s, (exec body s).(env).(requests) = s.(env).(requests)) ->
  (forall e s, (exec (handler e) s).(env).(requests) = s.(env).(requests)) ->
  (exec (tryCatch body handler) st).(env).(requests) = st.(env).(requests).
Proof.
  intros Hbody Hhandler. rewrite exec_tryCatch.
  destruct (completion body st); [apply Hbody |]. by rewrite Hhandler, Hbody.
Qed.

Lemma applyPagination_requests countries st :
  (exec (applyPagination countries) st).(env).(requests) = st.(env).(requests).
Proof. by destruct (applyPagination_rest countries st) as (_ & _ & ->). Qed.

Lemma settle_requests r o st :
  (exec (settle r o) st).(env).(requests) = st.(env).(requests).
Proof.
  destruct r; unfold settle; destruct o as [|data]; unfold thenCatch;
    try (apply tryCatch_requests; intros);
    unfold hideLoader; try rewrite exec_modify; rewrite ?applyPagination_requests;
    try done.
  by destruct data.
Qed.

Lemma advance_requests delay st :
  (advance delay st).(env).(requests) = st.(env).(requests).
Proof.
  unfold advance. simpl.
  set (st1 := onEnv _ st).
  change (requests (env st)) with (requests (env st1)). clearbody st1.
  revert st1. induction (stableSort _ _) as [|x ready IH]; intros st1; [done |].
  simpl. rewrite IH. by destruct (callback x).
Qed.

Lemma dispatch_validFeedback (i : Inputs) : validFeedback (Spec.dispatchExactRegion i).
Proof.
  unfold Spec.dispatchExactRegion. simpl.
  repeat match goal with |- context [isEmpty ?s] => destruct (isEmpty s) end; done.
Qed.

Lemma handle_requests e st :
  Forall validFeedback st.(env).(requests) ->
  Forall validFeedback (handle e st).(env).(requests).
Proof.
  intros Hst. destruct e; unfold handle; try done.
  - apply Forall_app. split; [done | by repeat constructor].
  - rewrite searchCountries_run. simpl. apply Forall_app. split; [done |].
    constructor; [apply dispatch_validFeedback | constructor].
  - by rewrite showSuggestions_run.
  - by destruct (navigation_rest prevPage st) as (_ & _ & ->); [left |].
  - by destruct (navigation_rest nextPage st) as (_ & _ & ->); [right |].
  - unfold submitFeedback. rewrite exec_get.
    destruct (Z.eqb_spec (selectedRating (globals st)) 0) as [|Hr]; [done |].
    destruct (isEmpty (trim (feedbackText (form st)))) eqn:Hc; [done |].
    simpl. apply Forall_app. split; [done |]. constructor; [| constructor].
    split; [done |]. split; [by apply isEmpty_false | apply trim_idempotent].
  - by rewrite settle_requests.
  - by rewrite advance_requests.
Qed.

(** X17. Whatever happens on the page, every feedback request it has sent
    carries a rating that is not 0 and a comment that is trimmed and not
    empty. *)
Theorem feedback_requests_always_valid (events : list Event) :
  Forall validFeedback (run events initial).(env).(requests).
Proof.
  unfold run. assert (Forall validFeedback initial.(env).(requests)) as Hinit
    by constructor.
  revert Hinit. generalize initial.
  induction events as [|e events IH]; intros st Hst; [done |].
  simpl. apply IH. by apply handle_requests.
Qed.

Lemma dataStep_same st st' :
  st'.(globals).(paginatedCountries) = st.(globals).(paginatedCountries) ->
  st'.(globals).(allCountries) = st.(globals).(allCountries) ->
  dataStep st st'.
Proof. intros H1 H2. split; by left. Qed.

Lemma dataStep_trans st1 st2 st3 :
  dataStep st1 st2 -> dataStep st2 st3 -> dataStep st1 st3.
Proof.
  intros [Hp12 Ha12] [Hp23 Ha23]. split.
  - destruct Hp23 as [-> | ?]; [exact Hp12 | by right].
  - destruct Ha23 as [-> | ?]; [exact Ha12 | by right].
Qed.

Lemma applyPagination_dataStep countries st :
  dataStep st (exec (applyPagination countries) st).
Proof.
  unfold dataStep. rewrite applyPagination_globals.
  destruct countries as [l|]; simpl; split; eauto.
Qed.

Lemma tryCatch_dataStep (body : M unit) (handler : JsError -> M unit) st :
  (forall s, dataStep s (exec body s)) ->
  (forall e s, dataStep s (exec (handler e) s)) ->
  dataStep st (exec (tryCatch body handler) st).
Proof.
  intros Hbody Hhandler. rewrite exec_tryCatch.
  destruct (completion body st); [apply Hbody |].
  eapply dataStep_trans; [apply Hbody | apply Hhandler].
Qed.

Lemma hideLoader_dataStep (m : M unit) st :
  (forall s, dataStep s (exec m s)) -> dataStep st (exec (hideLoader;; m) st).
Proof.
  intros Hm. unfold hideLoader. rewrite exec_modify.
  eapply dataStep_trans; [| apply Hm]. by apply dataStep_same.
Qed.

Lemma settle_dataStep r o st : dataStep st (exec (settle r o) st).
Proof.
  destruct r; unfold settle; destruct o as [|data]; unfold thenCatch;
    try (apply tryCatch_dataStep; intros);
    try (apply hideLoader_dataStep; intros);
    try apply applyPagination_dataStep;
    try (by apply dataStep_same).
  destruct data as [l|]; [| by apply dataStep_same].
  split; [by left | right; by exists l].
Qed.

Lemma advance_data delay st :
  (advance delay st).(globals).(paginatedCountries) = st.(globals).(paginatedCountries) /\
  (advance delay st).(globals).(allCountries) = st.(globals).(allCountries).
Proof.
  unfold advance. simpl.
  set (st1 := onEnv _ st).
  change (globals st) with (globals st1). clearbody st1.
  revert st1. induction (stableSort _ _) as [|x ready IH]; intros st1; [done |].
  simpl. destruct (IH (exec (runCallback (callback x))
                        (onEnv (set_now (now (env st1) `max` due x)) st1))) as [-> ->].
  by destruct (callback x).
Qed.

Lemma handle_dataStep e st : dataStep st (handle e st).
Proof.
  destruct e; unfold handle; try (by apply dataStep_same).
  - apply dataStep_same; by rewrite searchCountries_run.
  - apply dataStep_same; by rewrite showSuggestions_run.
  - unfold selectSuggestion. rewrite !exec_modify.
    eapply dataStep_trans; [| apply applyPagination_dataStep]. by apply dataStep_same.
  - apply dataStep_same; rewrite prevPage_globals;
      by destruct (currentPage (globals st) >? 1).
  - apply dataStep_same; rewrite nextPage_globals;
      by destruct (currentPage (globals st) <? totalPages st).
  - unfold submitFeedback. rewrite exec_get.
    destruct (selectedRating (globals st) =? 0); [by apply dataStep_same |].
    destruct (isEmpty (trim (feedbackText (form st)))); by apply dataStep_same.
  - apply settle_dataStep.
  - destruct (advance_data delay st). by apply dataStep_same.
Qed.

Lemma arraySort_sortedArray (consistent : ConsistentHost host) (l : list Element) :
  sortedArray (arraySort byCommonName l).
Proof.
  unfold sortedArray, arraySort. eexists _, _. split; [done |].
  by apply stableSort_sortedByName.
Qed.

(** X18. Whatever happens on the page, the Catalog is sorted by common
    name, and the Result Set is a sorted run of entities followed by
    nothing but [undefined] elements: the only writes to either list store
    the result of a sort. *)
Theorem lists_always_sorted (consistent : ConsistentHost host) (events : list Event) :
  let st := run events initial in
  StronglySorted inNameOrder st.(globals).(allCountries) /\
  sortedArray st.(globals).(paginatedCountries).
Proof.
  cbv zeta. unfold run.
  assert (StronglySorted inNameOrder initial.(globals).(allCountries) /\
          sortedArray initial.(globals).(paginatedCountries)) as Hinit.
  { split; [constructor |]. exists [], 0%nat. split; [done | constructor]. }
  revert Hinit. generalize initial.
  induction events as [|e events IH]; intros st Hst; [done |].
  simpl. apply IH. destruct Hst as [Hall Hset].
  assert (forall l, StronglySorted inNameOrder (stableSort byCommonName l))
    as Hsorted.
  { intros l. by apply stableSort_sortedByName. }
  destruct (handle_dataStep e st) as [[-> | [l ->]] [-> | [l' ->]]]; split;
    first [done | by apply arraySort_sortedArray | apply Hsorted].
Qed.

Lemma panelKept_refl st : panelKept st st.
Proof. by split. Qed.

Lemma panelKept_trans st1 st2 st3 :
  panelKept st1 st2 -> panelKept st2 st3 -> panelKept st1 st3.
Proof. intros [H1 H2] [H3 H4]. split; [by rewrite H3 | auto]. Qed.

Lemma renderPage_panelKept st : panelKept st (exec renderPage st).
Proof.
  unfold exec. rewrite renderPage_run. cbv zeta.
  destruct (length _ =? 0)%nat; [by split |]. by destruct (forallb isDefined _).
Qed.

Lemma applyPagination_panelKept countries st :
  panelKept st (exec (applyPagination countries) st).
Proof.
  destruct countries as [l|]; [| by split].
  unfold applyPagination. rewrite !exec_modify.
  eapply panelKept_trans; [| apply renderPage_panelKept]. by split.
Qed.

Lemma tryCatch_panelKept (body : M unit) (handler : JsError -> M unit) st :
  (forall s, panelKept s (exec body s)) ->
  (forall e s, panelKept s (exec (handler e) s)) ->
  panelKept st (exec (tryCatch body handler) st).
Proof.
  intros Hbody Hhandler. rewrite exec_tryCatch.
  destruct (completion body st); [apply Hbody |].
  eapply panelKept_trans; [apply Hbody | apply Hhandler].
Qed.

Lemma hideLoader_panelKept (m : M unit) st :
  (forall s, panelKept s (exec m s)) -> panelKept st (exec (hideLoader;; m) st).
Proof.
  intros Hm. unfold hideLoader. rewrite exec_modify.
  eapply panelKept_trans; [| apply Hm]. by split.
Qed.

Lemma settle_panelKept r o st : panelKept st (exec (settle r o) st).
Proof.
  destruct r; unfold settle; destruct o as [|data]; unfold thenCatch;
    try (apply tryCatch_panelKept; intros);
    try (apply hideLoader_panelKept; intros);
    try apply applyPagination_panelKept;
    try (by split).
  by destruct data.
Qed.

Lemma advance_panelKept delay st : panelKept st (advance delay st).
Proof.
  unfold advance.
  set (st1 := onEnv _ st).
  assert (panelKept st st1) as Hst1 by (by split). clearbody st1.
  eapply panelKept_trans; [| by split].
  revert st1 Hst1. induction (stableSort _ _) as [|x ready IH]; intros st1 Hst1; [done |].
  simpl. apply IH. eapply panelKept_trans; [exact Hst1 |].
  by destruct (callback x).
Qed.

Lemma panelKept_inOrder st st' : panelKept st st' -> panelInOrder st -> panelInOrder st'.
Proof. intros [Hitems Hshown] [Hlen Hne]. split; rewrite Hitems; auto. Qed.

Lemma handle_panelInOrder e st : panelInOrder st -> panelInOrder (handle e st).
Proof.
  intros Hst. destruct e; unfold handle; try done.
  - eapply panelKept_inOrder; [| exact Hst]. by rewrite searchCountries_run.
  - split; [simpl; lia | done].
  - rewrite showSuggestions_run. cbv zeta. unfold panelInOrder. simpl.
    destruct (isEmpty input); [split; [simpl; lia | done] |].
    rewrite length_map, suggest_take, length_take. split; [lia |].
    simpl. destruct (List.filter _ _); [done |]. by simpl.
  - unfold selectSuggestion. rewrite !exec_modify.
    eapply panelKept_inOrder; [apply applyPagination_panelKept |].
    split; [simpl; lia | done].
  - eapply panelKept_inOrder; [| exact Hst]. unfold prevPage. rewrite exec_get.
    destruct (currentPage (globals st) >? 1); [| apply panelKept_refl].
    rewrite exec_modify. eapply panelKept_trans; [| apply renderPage_panelKept]. by split.
  - eapply panelKept_inOrder; [| exact Hst]. unfold nextPage. rewrite exec_get.
    destruct (currentPage (globals st) <? totalPages st); [| apply panelKept_refl].
    rewrite exec_modify. eapply panelKept_trans; [| apply renderPage_panelKept]. by split.
  - eapply panelKept_inOrder; [| exact Hst]. unfold submitFeedback. rewrite exec_get.
    destruct (selectedRating (globals st) =? 0); [by split |].
    destruct (isEmpty (trim (feedbackText (form st)))); by split.
  - eapply panelKept_inOrder; [apply settle_panelKept | exact Hst].
  - eapply panelKept_inOrder; [apply advance_panelKept | exact Hst].
Qed.

(** X19. Whatever happens on the page, the suggestion panel never holds
    more than 5 items and is never shown empty. *)
Theorem panel_always_in_order (events : list Event) :
  panelInOrder (run events initial).
Proof.
  unfold run. assert (panelInOrder initial) as Hinit by (split; [simpl; lia | done]).
  revert Hinit. generalize initial.
  induction events as [|e events IH]; intros st Hst; [done |].
  simpl. apply IH. by apply handle_panelInOrder.
Qed.

End Always.

(** ** Details and theme *)

Section DetailsFacts.

Context {Number : Type} (toLocaleString : Number -> jsstring).

(** X20. When the details request fails, or its answer holds no record,
    the modal is neither filled nor opened: the error goes to the console,
    the loader is hidden, and no notice is raised. *)
Theorem details_lookup_fails (p : Page) :
  detailsUnavailable NetworkError p (settleDetails toLocaleString DetailsRejected p) /\
  detailsUnavailable TypeError p
    (settleDetails toLocaleString (DetailsResolved DObject) p) /\
  detailsUnavailable TypeError p
    (settleDetails toLocaleString (DetailsResolved (DArray [])) p).
Proof. by destruct p as [[g i [] f []] ? ? ? ? ? ? ?]. Qed.

(** X21. Asking for the details of a country and getting a list back
    fills the modal with the first record and opens it; of the rest of the
    page only the loader is touched, so the Result Set, the cursor and the
    list view are those of before. *)
Theorem details_lookup_shows_first_record
    (code : jsstring) (country : FullCountry) (others : list FullCountry)
    (p : Page) :
  let p' := settleDetails toLocaleString (DetailsResolved (DArray (country :: others)))
              (showCountryDetails code p) in
  p'.(modalBody) = Some (detailsOf toLocaleString country) /\
  p'.(countryModalShown) = true /\
  p'.(detailRequests) = p.(detailRequests) ++ [code] /\
  p'.(app) = onView (set_loaderHidden true) p.(app).
Proof. by destruct p as [[g i [] f e] ? ? ? ? ? ? ?]. Qed.

(** X22. The dial code shown is never blank: for a record with a root
    that is not empty it starts with that root, and for any other record
    it is N/A. The coat of arms shown is the record's own when the record
    has one that is not empty, and the flag otherwise. *)
Theorem details_fallbacks (country : FullCountry (Number := Number)) :
  let shown := detailsOf toLocaleString country in
  shown.(shownDialCode) <> [] /\
  (forall idd root,
     country.(full_idd) = Some idd -> idd.(idd_root) = Some root -> root <> [] ->
     root `prefix_of` shown.(shownDialCode)) /\
  ((forall idd root,
      country.(full_idd) = Some idd -> idd.(idd_root) = Some root -> root = []) ->
   shown.(shownDialCode) = js "N/A") /\
  (forall png,
     country.(full_coatOfArms_png) = Some png -> png <> [] ->
     shown.(shownCoatOfArms) = png) /\
  ((forall png, country.(full_coatOfArms_png) = Some png -> png = []) ->
   shown.(shownCoatOfArms) = country.(full_flags_png)).
Proof.
  cbv zeta. unfold detailsOf, dialCodeOf. simpl.
  split; [| split; [| split; [| split]]].
  - by destruct (full_idd country) as [[[[|c root]|] suffixes]|].
  - intros idd root -> Hroot Hne. destruct idd as [r suffixes]. simpl in Hroot. subst r.
    destruct root as [|c root]; [done |]. by eexists.
  - intros Hnone. destruct (full_idd country) as [[[[|c root]|] suffixes]|]; try done.
    by specialize (Hnone _ _ eq_refl eq_refl).
  - intros png -> Hne. by destruct png.
  - intros Hnone. destruct (full_coatOfArms_png country) as [[|d png]|]; try done.
    by specialize (Hnone _ eq_refl).
Qed.

Lemma toggleTheme_thrice (p : Page) :
  toggleTheme (toggleTheme (toggleTheme p)) = toggleTheme p.
Proof. destruct p as [? ? ? ? [] ? ? ?]; done. Qed.

(** X23. After any number of clicks on the theme button the icon is the
    one of the theme in force, the theme is the first one again after
    every second click, and two more clicks change nothing; the rest of
    the page is not touched. *)
Theorem toggleTheme_alternates (n : nat) (p : Page) :
  let p' := Nat.iter (S n) toggleTheme p in
  p'.(darkTheme) = xorb (Nat.even n) p.(darkTheme) /\
  p'.(themeIcon) = (if p'.(darkTheme) then js "dark.png" else js "light.png") /\
  p'.(app) = p.(app) /\
  p'.(modalBody) = p.(modalBody) /\
  Nat.iter 2 toggleTheme p' = p'.
Proof.
  cbv zeta. induction n as [|n (IHdark & IHicon & IHapp & IHbody & _)].
  - repeat split. apply toggleTheme_thrice.
  - change (Nat.iter (S (S n)) toggleTheme p)
      with (toggleTheme (Nat.iter (S n) toggleTheme p)).
    set (q := Nat.iter (S n) toggleTheme p) in *. clearbody q.
    split; [| split; [done | split; [done | split; [done |]]]].
    + change (darkTheme (toggleTheme q)) with (negb (darkTheme q)).
      rewrite IHdark, Nat.even_succ, <- Nat.negb_even.
      by destruct (Nat.even n), (darkTheme p).
    + apply toggleTheme_thrice.
Qed.

End DetailsFacts.

(** ** More of the theorems at work on concrete states *)

Section MoreInstances.

#[local] Existing Instance AsciiHost.host.

Lemma renderPage_shows_current_page_witness :
  let st := exec nextPage tenShown in
  st.(globals).(paginatedCountries) = map Some tenSorted /\
  tenSorted <> [] /\
  cursorInRange st /\
  (exec renderPage st).(view).(countryList) = cardsOf (pageOf tenSorted 2) /\
  (1 <= length (pageOf tenSorted 2) <= 9)%nat /\
  (exec renderPage st).(view).(countryCount) = Found 10.
Proof.
  cbv zeta.
  assert ((exec nextPage tenShown).(globals).(paginatedCountries) = map Some tenSorted)
    as Hset by (vm_compute; reflexivity).
  assert (tenSorted <> []) as Hne by (vm_compute; discriminate).
  assert (cursorInRange (exec nextPage tenShown)) as Hin by (vm_compute; split; discriminate).
  destruct (renderPage_shows_current_page tenSorted (exec nextPage tenShown) Hset Hne Hin)
    as (_ & Hlist & Hlen & Hcount & _).
  split; [exact Hset |]. split; [exact Hne |]. split; [exact Hin |].
  split; [exact Hlist |]. split; [exact Hlen | exact Hcount].
Defined.

Lemma pages_show_every_entity_once_witness :
  tenShown.(globals).(paginatedCountries) = map Some tenSorted /\
  tenSorted <> [] /\
  concat (map (fun page => (turnedTo page tenShown).(view).(countryList))
            (pageNumbers tenShown)) = cardsOf tenSorted.
Proof.
  assert (tenShown.(globals).(paginatedCountries) = map Some tenSorted)
    as Hset by (vm_compute; reflexivity).
  assert (tenSorted <> []) as Hne by (vm_compute; discriminate).
  split; [exact Hset |]. split; [exact Hne |].
  exact (pages_show_every_entity_once tenSorted tenShown Hset Hne).
Defined.

Lemma repeated_navigation_witness :
  cursorInRange tenShown /\
  (times 3 nextPage tenShown).(globals).(currentPage) = 2 /\
  (times 3 prevPage (times 3 nextPage tenShown)).(globals).(currentPage) = 1.
Proof.
  assert (cursorInRange tenShown) as Hin by (vm_compute; split; discriminate).
  split; [exact Hin |].
  destruct (repeated_navigation 3 tenShown Hin) as (Hnext & _ & _ & _).
  split; [rewrite Hnext; reflexivity |].
  assert (cursorInRange (times 3 nextPage tenShown)) as Hin'
    by (vm_compute; split; discriminate).
  destruct (repeated_navigation 3 _ Hin') as (_ & Hprev & _ & _).
  rewrite Hprev. reflexivity.
Defined.

Lemma nextPage_then_prevPage_witness :
  tenShown.(globals).(paginatedCountries) = map Some tenSorted /\
  1 <= tenShown.(globals).(currentPage) < totalPages tenShown /\
  exec prevPage (exec nextPage tenShown) = exec renderPage tenShown.
Proof.
  assert (tenShown.(globals).(paginatedCountries) = map Some tenSorted)
    as Hset by (vm_compute; reflexivity).
  assert (1 <= tenShown.(globals).(currentPage) < totalPages tenShown)
    as Hpage by (vm_compute; split; [discriminate | reflexivity]).
  split; [exact Hset |]. split; [exact Hpage |].
  exact (nextPage_then_prevPage tenSorted tenShown Hset Hpage).
Defined.

Lemma catalog_load_witness :
  ConsistentHost AsciiHost.host /\
  let st' := exec (settle LoadAll (Resolved (JArray tenCountries))) tenShown in
  st'.(globals).(allCountries) = tenSorted /\
  sortedByName tenCountries st'.(globals).(allCountries) /\
  st'.(globals).(paginatedCountries) = tenShown.(globals).(paginatedCountries).
Proof.
  split; [exact host_consistent |].
  destruct (catalog_load host_consistent tenCountries tenShown)
    as ((Hsorted & Hset & _) & _).
  split; [vm_compute; reflexivity |]. split; [exact Hsorted | exact Hset].
Defined.


Lemma lists_always_sorted_witness :
  let events := [ Loaded; Settled LoadAll (Resolved (JArray tenCountries));
                  Settled (ByCode (js "ZZ")) (Resolved JObject);
                  FiltersEdited (js "c") [] [] []; SearchClicked;
                  Settled (ByName (js "c")) (Resolved (JArray tenCountries));
                  NextClicked ] in
  ConsistentHost AsciiHost.host /\
  (run events initial).(globals).(allCountries) = tenSorted /\
  (run events initial).(globals).(paginatedCountries) = map Some tenSorted /\
  StronglySorted inNameOrder (run events initial).(globals).(allCountries) /\
  sortedArray (run events initial).(globals).(paginatedCountries).
Proof.
  cbv zeta. split; [exact host_consistent |].
  split; [vm_compute; reflexivity |]. split; [vm_compute; reflexivity |].
  exact (lists_always_sorted host_consistent _).
Defined.

(** The details of Chile, numbers shown as they are. *)
Example details_of_chile :
  let shown := detailsOf (fun n : jsstring => n) chile in
  shown.(shownDialCode) = js "+56" /\
  shown.(shownCapital) = js "Santiago" /\
  shown.(shownTimezones) = js "UTC-06:00, UTC-04:00" /\
  shown.(shownCoatOfArms) = js "cl.png".
Proof. by vm_compute. Qed.

Lemma searchCountries_dispatches_first_filter_witness :
  let all := withFilters (js " Chad ") (js "TD") (js "Santiago") (js "Africa") initial in
  trim (js "Africa") = js "Africa" /\
  (exec searchCountries all).(env).(requests) = [ByName (js "Chad")] /\
  (exec searchCountries initial).(env).(requests) = [LoadAll].
Proof.
  cbv zeta. assert (trim (js "Africa") = js "Africa") as Hregion by reflexivity.
  split; [exact Hregion |]. split.
  - exact (searchCountries_dispatches_first_filter
             (withFilters (js " Chad ") (js "TD") (js "Santiago") (js "Africa") initial)
             Hregion).
  - apply (searchCountries_dispatches_first_filter initial). reflexivity.
Defined.

Lemma list_lookups_show_sorted_answer_witness :
  let o := Resolved (JArray tenCountries) in
  ConsistentHost AsciiHost.host /\
  (exec (settle (ByRegion (js "Africa")) o) initial).(globals).(paginatedCountries) =
    map Some tenSorted /\
  exists sorted,
    sortedByName tenCountries sorted /\
    (answeredWith sorted initial (exec (settle (ByName (js "Africa")) o) initial) /\
     completion (settle (ByName (js "Africa")) o) initial = Normal tt) /\
    (answeredWith sorted initial (exec (settle (ByCapital (js "Africa")) o) initial) /\
     completion (settle (ByCapital (js "Africa")) o) initial = Normal tt) /\
    (answeredWith sorted initial (exec (settle (ByRegion (js "Africa")) o) initial) /\
     completion (settle (ByRegion (js "Africa")) o) initial = Normal tt).
Proof.
  cbv zeta. split; [exact host_consistent |]. split; [vm_compute; reflexivity |].
  exact (list_lookups_show_sorted_answer host_consistent (js "Africa") tenCountries initial).
Defined.

Lemma details_fallbacks_witness :
  let plain := detailsOf (fun n : jsstring => n) chile in
  let armed := detailsOf (fun n : jsstring => n) chileWithArms in
  plain.(shownDialCode) = js "+56" /\
  js "+5" `prefix_of` plain.(shownDialCode) /\
  plain.(shownCoatOfArms) = js "cl.png" /\
  armed.(shownCoatOfArms) = js "cl-arms.png".
Proof.
  cbv zeta.
  destruct (details_fallbacks (fun n : jsstring => n) chile)
    as (_ & Hroot & _ & _ & Hflag).
  destruct (details_fallbacks (fun n : jsstring => n) chileWithArms)
    as (_ & _ & _ & Harms & _).
  split; [reflexivity |]. split.
  - apply (Hroot _ (js "+5") eq_refl eq_refl). vm_compute. discriminate.
  - split.
    + apply Hflag. intros png Hpng. vm_compute in Hpng. discriminate Hpng.
    + apply (Harms (js "cl-arms.png") eq_refl). vm_compute. discriminate.
Defined.

(** C5. With page 2 of ten countries on display, a code lookup for ZZ that
    the API answers with a body holding no record (the object of its 404
    answer) raises the invalid-code notice, but not before the Result Set
    has become [[undefined]], the cursor page 1 and the count 1: the state
    is not what it was before the call. *)
Lemma unknown_code_replaces_results :
  let st := exec nextPage tenShown in
  let st' := exec (settle (ByCode (js "ZZ")) (Resolved JObject)) st in
  st.(globals).(paginatedCountries) = map Some tenSorted /\
  st.(globals).(currentPage) = 2 /\
  st'.(env).(alerts) = [js "Invalid country code!"] /\
  st'.(globals).(paginatedCountries) = [None] /\
  st'.(globals).(currentPage) = 1 /\
  st'.(view).(countryCount) = Found 1 /\
  ~ noticeOnly (js "Invalid country code!") st st'.
Proof.
  cbv zeta. do 6 (split; [vm_compute; reflexivity |]).
  intros (_ & Hset & _). vm_compute in Hset. discriminate Hset.
Qed.

End MoreInstances.
